(** * bytom node bootstrap: a shallow embedding of [node/node.go] and of the
    build-request alias filter, with the properties of its specification.

    The file has four parts:
    - [Aliases]: [filterAliases] of the blockchain reactor, over Go maps
      modelled as [gmap string Value];
    - [Gate]: the [waitHandler] of [node.go] as a transition system whose
      steps are the atomic actions of [Set] and [ServeHTTP];
    - [Pins]: the pin store contract;
    - [NodeLife]: [rpcInit], [NewNode], [OnStart], [startRPC] and [OnStop] in
      a state-and-exit monad over the external collaborators.

    The properties follow the definitions, in [AliasesProps], [GateProps],
    [PinsProps] and [NodeProps]. *)

From Stdlib Require Import ZArith Lia Ascii.
From stdpp Require Import gmap strings list fin_maps pretty.

(** Go's [(value, error)] results. *)
Inductive result (E A : Type) : Type :=
| Ok (a : A)
| Err (e : E).
Arguments Ok {E A} a.
Arguments Err {E A} e.

(* ===================================================================== *)
(** * Alias resolution in build requests ([filterAliases]) *)
(* ===================================================================== *)

Module Aliases.

Section FilterAliases.

(** Types of the packages the function only passes through. *)
Context {error AssetID TxData : Type}.

(** The dynamic values an action map holds ([interface{}]).  The function
    tells strings from everything else by a type assertion, and stores a
    [bc.AssetID] itself. *)
Inductive Value : Type :=
| VString (s : string)
| VAssetID (a : AssetID)
| VNumber (n : Z)
| VBool (b : bool)
| VNull.

Record Asset : Type := { asset_AssetID : AssetID }.

Record Account : Type := { account_ID : string }.

(** [errors.WithDetailf err format args]: the cause together with the
    rendered detail text. *)
Record detailed : Type := WithDetail { cause : error; detail : string }.

Record BuildRequest : Type := {
  Tx : option TxData;
  Actions : list (gmap string Value);
  TTL : Z
}.

(** The receiver: of the reactor, the function uses the two registries
    [a.assets] and [a.accounts] through their [FindByAlias]. *)
Record BlockchainReactor : Type := {
  assets_FindByAlias : string -> result error Asset;
  accounts_FindByAlias : string -> result error Account
}.

(** Registry calls, in the order the function makes them. *)
Inductive Lookup : Type :=
| AssetLookup (alias : string)
| AccountLookup (alias : string).

(** [s, _ := m[k].(string)]: the empty string when the key is absent or the
    value is not a string. *)
Definition str_at (m : gmap string Value) (k : string) : string :=
  match m !! k with
  | Some (VString s) => s
  | _ => ""
  end.

(** [fmt] rendering of the two detail formats. *)
Definition asset_detail (alias : string) (i : nat) : string :=
  "invalid asset alias " +:+ alias +:+ " on action " +:+ pretty i.

Definition account_detail (alias : string) (i : nat) : string :=
  "invalid account alias " +:+ alias +:+ " on action " +:+ pretty i.

(** What a part of the loop body leaves behind: the action map (mutated in
    place), the registry calls made, and the error returned, if any. *)
Definition outcome : Type :=
  (gmap string Value * list Lookup * option detailed)%type.

(** Lines 25-33. *)
Definition asset_part (a : BlockchainReactor) (i : nat)
    (m : gmap string Value) : outcome :=
  let id := str_at m "assset_id" in
  let alias := str_at m "asset_alias" in
  if bool_decide (id = "") && negb (bool_decide (alias = "")) then
    match assets_FindByAlias a alias with
    | Err err => (m, [AssetLookup alias],
                  Some (WithDetail err (asset_detail alias i)))
    | Ok asset => (<["asset_id" := VAssetID (asset_AssetID asset)]> m,
                   [AssetLookup alias], None)
    end
  else (m, [], None).

(** Lines 35-43. *)
Definition account_part (a : BlockchainReactor) (i : nat)
    (m : gmap string Value) : outcome :=
  let id := str_at m "account_id" in
  let alias := str_at m "account_alias" in
  if bool_decide (id = "") && negb (bool_decide (alias = "")) then
    match accounts_FindByAlias a alias with
    | Err err => (m, [AccountLookup alias],
                  Some (WithDetail err (account_detail alias i)))
    | Ok acc => (<["account_id" := VString (account_ID acc)]> m,
                 [AccountLookup alias], None)
    end
  else (m, [], None).

(** One iteration of the loop, on action [i]. *)
Definition body (a : BlockchainReactor) (i : nat)
    (m : gmap string Value) : outcome :=
  match asset_part a i m with
  | (m1, c1, Some e) => (m1, c1, Some e)
  | (m1, c1, None) =>
      match account_part a i m1 with
      | (m2, c2, r) => (m2, (c1 ++ c2)%list, r)
      end
  end.

(** The [range] loop from index [i] on.  The maps are shared with the
    caller, so the actions are given back as the loop leaves them, also when
    it stops with an error. *)
Fixpoint loop (a : BlockchainReactor) (i : nat)
    (acts : list (gmap string Value))
  : list (gmap string Value) * list Lookup * option detailed :=
  match acts with
  | [] => ([], [], None)
  | m :: rest =>
      match body a i m with
      | (m', c, Some e) => (m' :: rest, c, Some e)
      | (m', c, None) =>
          match loop a (S i) rest with
          | (rest', c', r) => (m' :: rest', (c ++ c')%list, r)
          end
      end
  end.

Definition filterAliases (a : BlockchainReactor) (br : BuildRequest)
  : BuildRequest * list Lookup * option detailed :=
  match loop a 0 (Actions br) with
  | (acts, c, r) =>
      ({| Tx := Tx br; Actions := acts; TTL := TTL br |}, c, r)
  end.

End FilterAliases.

Arguments Value : clear implicits.
Arguments Asset : clear implicits.
Arguments detailed : clear implicits.
Arguments BuildRequest : clear implicits.
Arguments BlockchainReactor : clear implicits.

(** A reactor whose asset registry knows the alias [silver] only and whose
    account registry knows the alias [alice] only; errors are their
    messages. *)
Definition demo_reactor : BlockchainReactor string string :=
  {| assets_FindByAlias := fun alias =>
       if bool_decide (alias = "silver") then Ok {| asset_AssetID := "a1" |}
       else Err "not found";
     accounts_FindByAlias := fun alias =>
       if bool_decide (alias = "alice") then Ok {| account_ID := "acc0" |}
       else Err "not found" |}.

Definition spend_action : gmap string (Value string) :=
  {[ "account_alias" := VString "alice" ]}.

Definition issue_action : gmap string (Value string) :=
  {[ "asset_alias" := VString "gold" ]}.

(** An action that names an asset both by alias and by id. *)
Definition retire_action : gmap string (Value string) :=
  {[ "asset_alias" := VString "silver"; "asset_id" := VString "ffff" ]}.

Definition demo_request : BuildRequest string unit :=
  {| Tx := None; Actions := [spend_action; issue_action]; TTL := 0 |}.

(** An action whose aliases are not usable: a number and an empty string. *)
Definition odd_action : gmap string (Value string) :=
  {[ "asset_alias" := VNumber 5; "account_alias" := VString "" ]}.

(** An action with a known asset alias and an unknown account alias. *)
Definition mixed_action : gmap string (Value string) :=
  {[ "asset_alias" := VString "silver"; "account_alias" := VString "bob" ]}.

Definition resolvable_request : BuildRequest string unit :=
  {| Tx := None; Actions := [retire_action; spend_action]; TTL := 0 |}.

End Aliases.

(* ===================================================================== *)
(** * The two-phase handler gate ([waitHandler]) *)
(* ===================================================================== *)

Module Gate.

Section WaitHandler.

(** Non-nil [http.Handler] values. *)
Context {Handler : Type}.

(** The struct: [h] is nil until [Set] stores a handler; [wg] is the counter
    of the [sync.WaitGroup]. *)
Record waitHandler : Type := { h : option Handler; wg : Z }.

(** Where a request, a goroutine running [ServeHTTP], stands. *)
Inductive request : Type :=
| Waiting                       (* inside [wh.wg.Wait()], line 115 *)
| Released                      (* [Wait] has returned, line 116 is next *)
| Dispatched (target : Handler) (* [wh.h.ServeHTTP] was called on [target] *)
| NilDispatch.                  (* [wh.h] was nil at line 116 *)

(** Where the one call [Set(h0)] of [rpcInit] stands. *)
Inductive setter : Type :=
| NotCalled
| Stored      (* line 110 done: [wh.h = h0] *)
| Finished.   (* line 111 done: [wh.wg.Done()] *)

Record system : Type := {
  wh : waitHandler;
  reqs : list request;
  set_pc : setter
}.

(** [var coreHandler waitHandler; coreHandler.wg.Add(1)]. *)
Definition init : system :=
  {| wh := {| h := None; wg := 0 + 1 |}; reqs := []; set_pc := NotCalled |}.

(** The atomic actions of the goroutines. *)
Inductive action : Type :=
| Arrive                 (* the server calls [ServeHTTP] for a new request *)
| WaitReturn (i : nat)   (* request [i] leaves [Wait]: the counter is zero *)
| Dispatch (i : nat)     (* request [i] reads [wh.h] and calls it *)
| SetStore               (* [wh.h = h0] *)
| SetDone.               (* [wh.wg.Done()] *)

Definition with_req (s : system) (i : nat) (r : request) : system :=
  {| wh := wh s; reqs := <[i := r]> (reqs s); set_pc := set_pc s |}.

(** One action, when it is enabled.  [Done] on a counter that would become
    negative panics: it is not a step. *)
Definition exec (h0 : Handler) (a : action) (s : system) : option system :=
  match a with
  | Arrive =>
      Some {| wh := wh s; reqs := reqs s ++ [Waiting]; set_pc := set_pc s |}
  | WaitReturn i =>
      match reqs s !! i with
      | Some Waiting =>
          if (wg (wh s) =? 0)%Z then Some (with_req s i Released) else None
      | _ => None
      end
  | Dispatch i =>
      match reqs s !! i with
      | Some Released =>
          Some (with_req s i match h (wh s) with
                             | Some t => Dispatched t
                             | None => NilDispatch
                             end)
      | _ => None
      end
  | SetStore =>
      match set_pc s with
      | NotCalled =>
          Some {| wh := {| h := Some h0; wg := wg (wh s) |};
                  reqs := reqs s; set_pc := Stored |}
      | _ => None
      end
  | SetDone =>
      match set_pc s with
      | Stored =>
          if (0 <=? wg (wh s) - 1)%Z
          then Some {| wh := {| h := h (wh s); wg := wg (wh s) - 1 |};
                       reqs := reqs s; set_pc := Finished |}
          else None
      | _ => None
      end
  end.

(** A schedule: the actions in the order they happen. *)
Fixpoint run (h0 : Handler) (sched : list action) (s : system)
  : option system :=
  match sched with
  | [] => Some s
  | a :: rest =>
      match exec h0 a s with
      | Some s' => run h0 rest s'
      | None => None
      end
  end.

(** The rest of [Set], from where it stands. *)
Definition finish_set (pc : setter) : list action :=
  match pc with
  | NotCalled => [SetStore; SetDone]
  | Stored => [SetDone]
  | Finished => []
  end.

(** The actions left to request [i], standing at [r]. *)
Definition finish_request (i : nat) (r : request) : list action :=
  match r with
  | Waiting => [WaitReturn i; Dispatch i]
  | Released => [Dispatch i]
  | Dispatched _ | NilDispatch => []
  end.

(** The requests [rs], which start at index [i], served one after the
    other. *)
Fixpoint serve_all (i : nat) (rs : list request) : list action :=
  match rs with
  | [] => []
  | r :: rest => finish_request i r ++ serve_all (S i) rest
  end.

(** A schedule that completes [Set] and then every request of [s]. *)
Definition completion (s : system) : list action :=
  finish_set (set_pc s) ++ serve_all 0 (reqs s).

(** [sync.WaitGroup.Add(delta)]: the delta is added to the counter first,
    and the call then panics when the counter has become negative, so the
    negative counter stays behind.  The result is the counter the call
    leaves and whether it panicked.  [Done()] is [Add(-1)]. *)
Definition wg_Add (delta counter : Z) : Z * bool :=
  ((counter + delta)%Z, (counter + delta <? 0)%Z).

(** Lines 109-112 run to their end on the gate [w]: the gate they leave, and
    whether [Done] panicked. *)
Definition call_Set (h1 : Handler) (w : waitHandler) : waitHandler * bool :=
  let w1 := {| h := Some h1; wg := wg w |} in
  let '(counter, panicked) := wg_Add (-1) (wg w1) in
  ({| h := h w1; wg := counter |}, panicked).

(** Lines 114-117 on a gate that nobody changes meanwhile: where the request
    ends up.  [Wait] returns only on a counter that is zero; on any other
    counter, a negative one included, the request is held. *)
Definition call_ServeHTTP (w : waitHandler) : request :=
  if (wg w =? 0)%Z
  then match h w with
       | Some t => Dispatched t
       | None => NilDispatch
       end
  else Waiting.

End WaitHandler.

Arguments waitHandler : clear implicits.
Arguments request : clear implicits.
Arguments system : clear implicits.

(** Two requests, one arriving before [Set] starts and one between its two
    lines; the first is served once [Set] has returned. *)
Definition demo_schedule : list action :=
  [Arrive; SetStore; Arrive; SetDone; WaitReturn 0; Dispatch 0].

Definition demo_system : system string :=
  {| wh := {| h := Some "mux"; wg := 0 |};
     reqs := [Dispatched "mux"; Waiting];
     set_pc := Finished |}.

(** [demo_system] after its second request has been served too. *)
Definition demo_served : system string :=
  {| wh := {| h := Some "mux"; wg := 0 |};
     reqs := [Dispatched "mux"; Dispatched "mux"];
     set_pc := Finished |}.

End Gate.

(* ===================================================================== *)
(** * The pin store *)
(* ===================================================================== *)

Module Pins.

(** Modelled from the spec: package [blockchain/pin] is not among the
    sources.  A pin is a name with a height; the store maps each consumer name
    to its pin's height. *)
Abbreviation Store := (gmap string Z).

(** Modelled from the spec: [CreatePin(name, initialHeight)]: if a pin with
    [name] already exists, this is a no-op and the existing height is
    preserved; otherwise the pin is created at [initialHeight]. *)
Definition CreatePin {error : Type} (ps : gmap string Z) (name : string)
    (initialHeight : Z) : result error (gmap string Z) :=
  match ps !! name with
  | Some _ => Ok ps
  | None => Ok (<[name := initialHeight]> ps)
  end.

(** Modelled from the spec: the contract of [CreatePin] (section 4.4) for
    any pin store, read through [height_of], which gives the height of the
    pin of a name if there is one.  A call that succeeds leaves the pin of
    [name] at the height it had, or at [initialHeight] when there was none,
    and every other pin as it was. *)
Definition CreatePin_contract {error PinStore : Type}
    (height_of : PinStore -> string -> option Z)
    (create : PinStore -> string -> Z -> result error PinStore) : Prop :=
  forall ps name initialHeight ps',
    create ps name initialHeight = Ok ps' ->
    height_of ps' name = Some (default initialHeight (height_of ps name))
    /\ forall other, other <> name -> height_of ps' other = height_of ps other.

End Pins.

(* ===================================================================== *)
(** * Node construction, start and stop ([node.go]) *)
(* ===================================================================== *)

Module NodeLife.

(** [strings.Split(s, sep)] for a one-character separator: one more piece
    than there are separators, so [Split("", ",")] is [[""]]. *)
Fixpoint Split1 (sep : Ascii.ascii) (s : string) : list string :=
  match s with
  | EmptyString => [EmptyString]
  | String c rest =>
      match Split1 sep rest with
      | piece :: more =>
          if Ascii.eqb c sep then EmptyString :: piece :: more
          else String c piece :: more
      | [] => [s]
      end
  end.

(** [strings.SplitN(s, sep, 2)] for a non-empty [sep]: cut at the first
    occurrence of [sep], or [s] alone when there is none. *)
Fixpoint SplitN2 (sep : string) (s : string) : list string :=
  if String.prefix sep s
  then [EmptyString;
        String.substring (String.length sep)
          (String.length s - String.length sep) s]
  else match s with
       | EmptyString => [s]
       | String c rest =>
           match SplitN2 sep rest with
           | [a; b] => [String c a; b]
           | _ => [s]
           end
       end.

(** Lines 467-474. *)
Definition ProtocolAndAddress (listenAddr : string) : string * string :=
  match SplitN2 "://" listenAddr with
  | [p; a] => (p, a)
  | _ => ("tcp", listenAddr)
  end.

(** [uint64] arithmetic. *)
Definition wrap64 (z : Z) : Z := z mod 2 ^ 64.

(** Lines 213-216: the height the pins are created at. *)
Definition initial_pin_height (storeHeight : Z) : Z :=
  let pinHeight := storeHeight in
  if (0 <? pinHeight)%Z then wrap64 (pinHeight - 1) else pinHeight.

Arguments initial_pin_height : simpl never.

(** The fields of [cfg.Config] that [node.go] reads. *)
Record P2PConfig : Type := {
  P2P_ListenAddress : string;
  P2P_Seeds : string;
  P2P_PexReactor : bool;
  P2P_SkipUPNP : bool
}.

Record RPCConfig : Type := {
  RPC_ListenAddress : string;
  RPC_GRPCListenAddress : string;
  RPC_Unsafe : bool
}.

Record Config : Type := {
  P2P : P2PConfig;
  RPC : RPCConfig;
  Wallet_Enable : bool;
  ApiAddress : string;
  ProfListenAddress : string;
  FastSync : bool;
  Moniker : string
}.

(** A bound socket, by the call that bound it. *)
Inductive listener : Type :=
| ApiListener (addr : string)               (* [net.Listen] in [rpcInit] *)
| PeerListener (protocol address : string)  (* [p2p.NewDefaultListener] *)
| HTTPListener (addr : string)              (* [rpcserver.StartHTTPServer] *)
| GRPCListener (addr : string)              (* [grpccore.StartGRPCServer] *)
| ProfileListener (host : string).          (* [http.ListenAndServe] *)

#[global] Instance listener_eq_dec : EqDecision listener.
Proof. solve_decision. Defined.

(** What a [go] statement starts. *)
Inductive goroutine : Type :=
| GoServe (l : option listener)    (* [server.Serve(listener)], line 154 *)
| GoProcessBlocks                  (* [accounts.ProcessBlocks(ctx)] *)
| GoProfileServer (host : string). (* [http.ListenAndServe(profileHost, nil)] *)

(** How the process is ended from inside the constructor. *)
Inductive fatal : Type :=
| CmnExit (format : string)   (* [cmn.Exit(cmn.Fmt(format, err))] *)
| LogFatalkv                  (* [bytomlog.Fatalkv(ctx, KeyError, err)] *)
| NilListener.                (* a method call on a nil [net.Listener] *)

(** [p2p.Switch], as far as the node drives it. *)
Record Switch : Type := {
  reactors : list string;
  sw_listeners : list listener;
  sw_running : bool
}.

Definition NewSwitch : Switch :=
  {| reactors := []; sw_listeners := []; sw_running := false |}.

Definition AddReactor (name : string) (sw : Switch) : Switch :=
  {| reactors := reactors sw ++ [name];
     sw_listeners := sw_listeners sw;
     sw_running := sw_running sw |}.

Definition AddListener (l : listener) (sw : Switch) : Switch :=
  {| reactors := reactors sw;
     sw_listeners := sw_listeners sw ++ [l];
     sw_running := sw_running sw |}.

Definition Started (sw : Switch) : Switch :=
  {| reactors := reactors sw;
     sw_listeners := sw_listeners sw;
     sw_running := true |}.

(** The [Node] struct: [has_addrBook] and [has_wallet] say whether
    [addrBook], and [accounts] and [assets], are non-nil. *)
Record Node : Type := {
  config : Config;
  sw : Switch;
  has_addrBook : bool;
  has_wallet : bool;
  rpcListeners : list (option listener)
}.

Definition set_rpcListeners (n : Node) (ls : list (option listener)) : Node :=
  {| config := config n; sw := sw n; has_addrBook := has_addrBook n;
     has_wallet := has_wallet n; rpcListeners := ls |}.

Definition set_sw (n : Node) (s : Switch) : Node :=
  {| config := config n; sw := s; has_addrBook := has_addrBook n;
     has_wallet := has_wallet n; rpcListeners := rpcListeners n |}.

Section Collaborators.

(** Types of the packages outside [node.go]: Go errors, the block store
    ([txdb.Store] with the chain on it), the pin store and blocks. *)
Context {error Store PinStore Block : Type}.

(** The calls the node makes, in the order it makes them. *)
Inductive event : Type :=
| EvEventSwitchStart
| EvAddBlock (b : Block)
| EvLoadAll
| EvCreatePin (name : string) (height : Z)
| EvLogError (err : error)
| EvGo (g : goroutine)
| EvAddReactor (name : string)
| EvBind (l : listener)          (* an attempt to bind [l] *)
| EvGateSet                      (* [coreHandler.Set(h)] *)
| EvSwitchStart
| EvDialSeeds (seeds : list string)
| EvConfigureRPC
| EvAddUnsafeRoutes
| EvSwitchStop
| EvClose (l : listener).

(** What the other packages answer.  Their code is not part of [node.go]. *)
Record Env : Type := {
  genesisBlock : Block;
  account_PinName : string;
  account_DeleteSpentsPinName : string;
  eventSwitch_Start : option error;
  store_Height : Store -> Z;
  chain_AddBlock : Store -> Block -> result error Store;
  pinStore_LoadAll : PinStore -> result error PinStore;
  pinStore_CreatePin : PinStore -> string -> Z -> result error PinStore;
  pseudohsm_New : option error;
  env_String : string -> string -> string;
  net_Listen : list listener -> string -> option error;
  sw_Start : option error;
  sw_DialSeeds : list string -> option error;
  rpcserver_StartHTTPServer : list listener -> string -> option error;
  grpccore_StartGRPCServer : list listener -> string -> option error;
  listener_Close : listener -> option error
}.

(** The state outside the [Node] struct: the two stores and the sockets the
    process holds open. *)
Record world : Type := {
  store : Store;
  pins : PinStore;
  listening : list listener
}.

Definition set_store (w : world) (s : Store) : world :=
  {| store := s; pins := pins w; listening := listening w |}.

Definition set_pins (w : world) (p : PinStore) : world :=
  {| store := store w; pins := p; listening := listening w |}.

Definition set_listening (w : world) (ls : list listener) : world :=
  {| store := store w; pins := pins w; listening := ls |}.

(** A call either returns or ends the process. *)
Inductive outcome (A : Type) : Type :=
| Return (a : A)
| Exited (how : fatal) (err : option error).
Arguments Return {A} a.
Arguments Exited {A} how err.

(** Computations: from a world to an outcome, the world left behind and the
    calls made. *)
Definition M (A : Type) : Type := world -> outcome A * world * list event.

Definition ret {A} (a : A) : M A := fun w => (Return a, w, []).

Definition bind {A B} (m : M A) (k : A -> M B) : M B := fun w =>
  match m w with
  | (Return a, w1, ev1) =>
      match k a w1 with
      | (r, w2, ev2) => (r, w2, ev1 ++ ev2)
      end
  | (Exited how err, w1, ev1) => (Exited how err, w1, ev1)
  end.

Definition emit (ev : event) : M unit := fun w => (Return tt, w, [ev]).

Definition exit {A} (how : fatal) (err : option error) : M A :=
  fun w => (Exited how err, w, []).

Notation "'let*' x ':=' m 'in' k" := (bind m (fun x => k))
  (at level 10, x name, m at level 100, k at level 200).

Notation "'let*' ' p ':=' m 'in' k" :=
  (bind m (fun x => match x with p => k end))
  (at level 10, p pattern, m at level 100, k at level 200).

(** The receiver of the calls below: the answers of the other packages. *)
Variable E : Env.

(** ** The constructor *)

(** Lines 170-175. *)
Definition start_event_switch : M unit :=
  let* _ := emit EvEventSwitchStart in
  match eventSwitch_Start E with
  | Some err => exit (CmnExit "Failed to start switch: %v") (Some err)
  | None => ret tt
  end.

(** [store.Height()]. *)
Definition Height : M Z := fun w => (Return (store_Height E (store w)), w, []).

(** [chain.AddBlock(nil, block)]: on success the store holds the block. *)
Definition AddBlock (b : Block) : M (option error) := fun w =>
  match chain_AddBlock E (store w) b with
  | Ok s' => (Return None, set_store w s', [EvAddBlock b])
  | Err err => (Return (Some err), w, [EvAddBlock b])
  end.

(** Lines 193-197. *)
Definition genesis_bootstrap : M unit :=
  let* height := Height in
  if (height <? 1)%Z then
    let* err := AddBlock (genesisBlock E) in
    match err with
    | Some err =>
        exit (CmnExit "Failed to add genesisBlock to Chain: %v") (Some err)
    | None => ret tt
    end
  else ret tt.

(** [pinStore.LoadAll(ctx)]. *)
Definition LoadAll : M (option error) := fun w =>
  match pinStore_LoadAll E (pins w) with
  | Ok p' => (Return None, set_pins w p', [EvLoadAll])
  | Err err => (Return (Some err), w, [EvLoadAll])
  end.

(** [pinStore.CreatePin(ctx, name, height)]. *)
Definition CreatePin (name : string) (height : Z) : M (option error) :=
  fun w =>
  match pinStore_CreatePin E (pins w) name height with
  | Ok p' => (Return None, set_pins w p', [EvCreatePin name height])
  | Err err => (Return (Some err), w, [EvCreatePin name height])
  end.

(** Lines 219-224, the loop over [pins]. *)
Fixpoint create_pins (names : list string) (pinHeight : Z) : M unit :=
  match names with
  | [] => ret tt
  | p :: rest =>
      let* err := CreatePin p pinHeight in
      match err with
      | Some err => exit LogFatalkv (Some err)
      | None => create_pins rest pinHeight
      end
  end.

(** [net.Listen("tcp", addr)] of line 148; the error is dropped there, so a
    failed call leaves a nil listener. *)
Definition Listen (addr : string) : M (option listener) := fun w =>
  match net_Listen E (listening w) addr with
  | None => (Return (Some (ApiListener addr)),
             set_listening w (listening w ++ [ApiListener addr]),
             [EvBind (ApiListener addr)])
  | Some _ => (Return None, w, [EvBind (ApiListener addr)])
  end.

(** Lines 119-158.  The handler chain around the gate is built in memory;
    what reaches outside is the listener, the serving goroutine and the
    [Set] that opens the gate. *)
Definition rpcInit (config : Config) : M unit :=
  let listenAddr := env_String E "LISTEN" (ApiAddress config) in
  let* l := Listen listenAddr in
  let* _ := emit (EvGo (GoServe l)) in
  emit EvGateSet.

(** Lines 281-283, the body of the profile server's goroutine:
    [http.ListenAndServe(profileHost, nil)] binds [profileHost] with
    [net.Listen] and serves on it; when the bind fails it returns the error,
    which [logger.Error] logs.  The goroutine's bind is recorded at the [go]
    statement that starts it. *)
Definition ListenAndServe (host : string) : M unit := fun w =>
  match net_Listen E (listening w) host with
  | None => (Return tt,
             set_listening w (listening w ++ [ProfileListener host]),
             [EvBind (ProfileListener host)])
  | Some err => (Return tt, w, [EvBind (ProfileListener host); EvLogError err])
  end.

(** Lines 245-300: from the key store to the [Node] value. *)
Definition finish (config : Config) (wallet : bool) : M (option Node) :=
  let* _ := match pseudohsm_New E with
            | Some err => exit (CmnExit "initialize HSM failed: %v") (Some err)
            | None => ret tt
            end in
  let* _ := emit (EvAddReactor "BLOCKCHAIN") in
  let sw1 := AddReactor "BLOCKCHAIN" NewSwitch in
  let* _ := rpcInit config in
  let* sw2 := if P2P_PexReactor (P2P config)
              then let* _ := emit (EvAddReactor "PEX") in
                   ret (AddReactor "PEX" sw1)
              else ret sw1 in
  let profileHost := ProfListenAddress config in
  let* _ := if negb (bool_decide (profileHost = ""))
            then let* _ := emit (EvGo (GoProfileServer profileHost)) in
                 ListenAndServe profileHost
            else ret tt in
  ret (Some {| config := config; sw := sw2;
               has_addrBook := P2P_PexReactor (P2P config);
               has_wallet := wallet; rpcListeners := [] |}).

(** Lines 160-301.  The constructors that only build values in memory
    (the databases' handles, the key pair, the switch, the transaction pool,
    [protocol.NewChain], whose error is overwritten unread, the account
    manager, the asset registry and the reactor) make no call recorded
    here. *)
Definition NewNode (config : Config) : M (option Node) :=
  let* _ := start_event_switch in
  let* _ := genesis_bootstrap in
  if Wallet_Enable config then
    let* err := LoadAll in
    match err with
    | Some err =>
        let* _ := emit (EvLogError err) in
        ret None
    | None =>
        let* storeHeight := Height in
        let pinHeight := initial_pin_height storeHeight in
        let pins := [account_PinName E; account_DeleteSpentsPinName E] in
        let* _ := create_pins pins pinHeight in
        let* _ := emit (EvGo GoProcessBlocks) in
        finish config true
    end
  else finish config false.

(** ** Start and stop *)

(** [p2p.NewDefaultListener(protocol, address, ...)]: the peer socket. *)
Definition NewDefaultListener (protocol address : string) : M listener :=
  fun w =>
  let l := PeerListener protocol address in
  (Return l, set_listening w (listening w ++ [l]), [EvBind l]).

(** [rpcserver.StartHTTPServer(listenAddr, mux, logger)]. *)
Definition StartHTTPServer (listenAddr : string)
  : M (result error listener) := fun w =>
  match rpcserver_StartHTTPServer E (listening w) listenAddr with
  | None => (Return (Ok (HTTPListener listenAddr)),
             set_listening w (listening w ++ [HTTPListener listenAddr]),
             [EvBind (HTTPListener listenAddr)])
  | Some err => (Return (Err err), w, [EvBind (HTTPListener listenAddr)])
  end.

(** [grpccore.StartGRPCServer(addr)]. *)
Definition StartGRPCServer (addr : string) : M (result error listener) :=
  fun w =>
  match grpccore_StartGRPCServer E (listening w) addr with
  | None => (Return (Ok (GRPCListener addr)),
             set_listening w (listening w ++ [GRPCListener addr]),
             [EvBind (GRPCListener addr)])
  | Some err => (Return (Err err), w, [EvBind (GRPCListener addr)])
  end.

(** Lines 393-405: the loop over [listenAddrs] from index [i] on, writing
    into the slice [listeners]; [return nil, err] at the first failure. *)
Fixpoint bind_loop (i : nat) (listenAddrs : list string)
    (listeners : list (option listener))
  : M (list (option listener) * option error) :=
  match listenAddrs with
  | [] => ret (listeners, None)
  | listenAddr :: rest =>
      let* r := StartHTTPServer listenAddr in
      match r with
      | Err err => ret ([], Some err)
      | Ok l => bind_loop (S i) rest (<[i := Some l]> listeners)
      end
  end.

(** Lines 383-417. *)
Definition startRPC (n : Node) : M (list (option listener) * option error) :=
  let* _ := emit EvConfigureRPC in
  let listenAddrs := Split1 ","%char (RPC_ListenAddress (RPC (config n))) in
  let* _ := if RPC_Unsafe (RPC (config n))
            then emit EvAddUnsafeRoutes else ret tt in
  let* '(listeners, err) :=
    bind_loop 0 listenAddrs (replicate (length listenAddrs) None) in
  match err with
  | Some err => ret ([], Some err)
  | None =>
      let grpcListenAddr := RPC_GRPCListenAddress (RPC (config n)) in
      if negb (bool_decide (grpcListenAddr = "")) then
        let* r := StartGRPCServer grpcListenAddr in
        match r with
        | Err err => ret ([], Some err)
        | Ok l => ret (listeners ++ [Some l], None)
        end
      else ret (listeners, None)
  end.

(** [n.DialSeeds(seeds)], lines 462-464. *)
Definition DialSeeds (seeds : list string) : M (option error) :=
  let* _ := emit (EvDialSeeds seeds) in
  ret (sw_DialSeeds E seeds).

(** Lines 303-335.  The node is given back with what the call changed in
    it, next to the error returned. *)
Definition OnStart (n : Node) : M (Node * option error) :=
  let '(protocol, address) :=
    ProtocolAndAddress (P2P_ListenAddress (P2P (config n))) in
  let* l := NewDefaultListener protocol address in
  let n1 := set_sw n (AddListener l (sw n)) in
  let* _ := emit EvSwitchStart in
  match sw_Start E with
  | Some err => ret (n1, Some err)
  | None =>
      let n2 := set_sw n1 (Started (sw n1)) in
      let* err := if negb (bool_decide (P2P_Seeds (P2P (config n)) = ""))
                  then DialSeeds (Split1 ","%char (P2P_Seeds (P2P (config n))))
                  else ret None in
      match err with
      | Some err => ret (n2, Some err)
      | None =>
          if negb (bool_decide (RPC_ListenAddress (RPC (config n)) = ""))
          then
            let* '(listeners, err) := startRPC n2 in
            match err with
            | Some err => ret (n2, Some err)
            | None => ret (set_rpcListeners n2 listeners, None)
            end
          else ret (n2, None)
      end
  end.

(** [l.Close()]: the socket is released; the error, if any, is only logged
    by the caller. *)
Definition Close (l : listener) : M unit := fun w =>
  (Return tt,
   set_listening w (filter (fun l' => l' <> l) (listening w)),
   EvClose l :: match listener_Close E l with
                | Some err => [EvLogError err]
                | None => []
                end).

(** Lines 344-349. *)
Fixpoint close_all (ls : list (option listener)) : M unit :=
  match ls with
  | [] => ret tt
  | Some l :: rest => let* _ := Close l in close_all rest
  | None :: _ => exit NilListener None
  end.

(** Lines 337-350.  What [n.sw.Stop()] does to the switch's own peer
    listeners happens inside package [p2p] and is not recorded in
    [listening]. *)
Definition OnStop (n : Node) : M unit :=
  let* _ := emit EvSwitchStop in
  close_all (rpcListeners n).

(** ** Reading the calls made *)

(** The blocks handed to [chain.AddBlock]. *)
Definition added_blocks (evs : list event) : list Block :=
  omap (fun ev => match ev with EvAddBlock b => Some b | _ => None end) evs.

(** The [CreatePin] calls, as name and height. *)
Definition created_pins (evs : list event) : list (string * Z) :=
  omap (fun ev => match ev with
                  | EvCreatePin name height => Some (name, height)
                  | _ => None
                  end) evs.

(** The sockets the process tried to bind. *)
Definition bound (evs : list event) : list listener :=
  omap (fun ev => match ev with EvBind l => Some l | _ => None end) evs.

(** The goroutines started. *)
Definition spawned (evs : list event) : list goroutine :=
  omap (fun ev => match ev with EvGo g => Some g | _ => None end) evs.

(** The listeners closed. *)
Definition closed (evs : list event) : list listener :=
  omap (fun ev => match ev with EvClose l => Some l | _ => None end) evs.

End Collaborators.

Arguments event : clear implicits.
Arguments Env : clear implicits.
Arguments world : clear implicits.
Arguments outcome : clear implicits.
Arguments M : clear implicits.
Arguments Return {error A} a.
Arguments Exited {error A} how err.

(** ** A concrete setting

    Errors are their messages, a block is its name, the block store is its
    height (adding a block raises it by one), and the pin store is the one of
    [Pins].  The parameters choose which collaborator fails: [LoadAll], the
    seed dial, and the addresses that cannot be bound. *)
Definition demo_env (loadAll_fails dial_fails : bool) (busy : list string)
  : Env string Z (gmap string Z) string :=
  {| genesisBlock := "genesis";
     account_PinName := "account";
     account_DeleteSpentsPinName := "delete-account-spents";
     eventSwitch_Start := None;
     store_Height := fun s => s;
     chain_AddBlock := fun s _ => Ok (s + 1)%Z;
     pinStore_LoadAll := fun p =>
       if loadAll_fails then Err "pin: load failed" else Ok p;
     pinStore_CreatePin := Pins.CreatePin;
     pseudohsm_New := None;
     env_String := fun _ value => value;
     net_Listen := fun _ addr =>
       if bool_decide (addr ∈ busy) then Some "address already in use"
       else None;
     sw_Start := None;
     sw_DialSeeds := fun _ =>
       if dial_fails then Some "dial: no route to host" else None;
     rpcserver_StartHTTPServer := fun _ addr =>
       if bool_decide (addr ∈ busy) then Some "address already in use"
       else None;
     grpccore_StartGRPCServer := fun _ addr =>
       if bool_decide (addr ∈ busy) then Some "address already in use"
       else None;
     listener_Close := fun _ => None |}.

Definition demo_config (wallet : bool) (seeds rpc : string) : Config :=
  {| P2P := {| P2P_ListenAddress := "tcp://0.0.0.0:46656";
               P2P_Seeds := seeds;
               P2P_PexReactor := false;
               P2P_SkipUPNP := true |};
     RPC := {| RPC_ListenAddress := rpc;
               RPC_GRPCListenAddress := "";
               RPC_Unsafe := false |};
     Wallet_Enable := wallet;
     ApiAddress := "0.0.0.0:1999";
     ProfListenAddress := "";
     FastSync := true;
     Moniker := "anonymous" |}.

(** A world whose block store has the given height, with no pins and no
    socket open. *)
Definition demo_world (height : Z) : world Z (gmap string Z) :=
  {| store := height; pins := ∅; listening := [] |}.

(** The node the constructor returns for [demo_config]. *)
Definition demo_node (wallet : bool) (seeds rpc : string) : Node :=
  {| config := demo_config wallet seeds rpc;
     sw := AddReactor "BLOCKCHAIN" NewSwitch;
     has_addrBook := false;
     has_wallet := wallet;
     rpcListeners := [] |}.

(** The demo setting with faults in the constructor: the key store may
    fail, and [CreatePin] fails for the pin named [bad_pin]. *)
Definition faulty_env (hsm_fails : bool) (bad_pin : string)
  : Env string Z (gmap string Z) string :=
  {| genesisBlock := "genesis";
     account_PinName := "account";
     account_DeleteSpentsPinName := "delete-account-spents";
     eventSwitch_Start := None;
     store_Height := fun s => s;
     chain_AddBlock := fun s _ => Ok (s + 1)%Z;
     pinStore_LoadAll := fun p => Ok p;
     pinStore_CreatePin := fun p name height =>
       if bool_decide (name = bad_pin) then Err "pin: write failed"
       else Pins.CreatePin p name height;
     pseudohsm_New := if hsm_fails then Some "hsm: no key directory" else None;
     env_String := fun _ value => value;
     net_Listen := fun _ _ => None;
     sw_Start := None;
     sw_DialSeeds := fun _ => None;
     rpcserver_StartHTTPServer := fun _ _ => None;
     grpccore_StartGRPCServer := fun _ _ => None;
     listener_Close := fun l =>
       if bool_decide (l = HTTPListener ":8002")
       then Some "close: already closed" else None |}.

(** A node configured with two RPC addresses and a gRPC address. *)
Definition grpc_node : Node :=
  {| config := {| P2P := {| P2P_ListenAddress := "tcp://0.0.0.0:46656";
                            P2P_Seeds := "";
                            P2P_PexReactor := false;
                            P2P_SkipUPNP := true |};
                  RPC := {| RPC_ListenAddress := ":8001,:8002";
                            RPC_GRPCListenAddress := ":9090";
                            RPC_Unsafe := true |};
                  Wallet_Enable := false;
                  ApiAddress := "0.0.0.0:1999";
                  ProfListenAddress := "";
                  FastSync := true;
                  Moniker := "anonymous" |};
     sw := AddReactor "BLOCKCHAIN" NewSwitch;
     has_addrBook := false;
     has_wallet := false;
     rpcListeners := [] |}.



End NodeLife.


(* ===================================================================== *)
(** * Properties of [filterAliases] *)
(* ===================================================================== *)

Module AliasesProps.
Import Aliases.

Section Facts.

Context {error AssetID TxData : Type}.
Implicit Types (a : BlockchainReactor error AssetID).
Implicit Types (m bad good : gmap string (Value AssetID)).
Implicit Types (acts pre post : list (gmap string (Value AssetID))).

Lemma str_at_string m k s : m !! k = Some (VString s) -> str_at m k = s.
Proof. unfold str_at. intros ->. reflexivity. Qed.

Lemma str_at_insert_ne m k k' v : k <> k' -> str_at (<[k := v]> m) k' = str_at m k'.
Proof. intros Hne. unfold str_at. rewrite lookup_insert_ne; auto. Qed.

(** The asset part when its guard holds. *)
Lemma asset_part_resolves a i m alias :
  str_at m "assset_id" = "" -> str_at m "asset_alias" = alias -> alias <> "" ->
  asset_part a i m =
    match assets_FindByAlias a alias with
    | Err err => (m, [AssetLookup alias],
                  Some (WithDetail err (asset_detail alias i)))
    | Ok asset => (<["asset_id" := VAssetID (asset_AssetID asset)]> m,
                   [AssetLookup alias], None)
    end.
Proof.
  intros Hid Hal Hne. unfold asset_part. rewrite Hid, Hal.
  rewrite bool_decide_eq_true_2 by reflexivity.
  rewrite bool_decide_eq_false_2 by assumption. reflexivity.
Qed.

Lemma asset_part_skips a i m :
  str_at m "asset_alias" = "" -> asset_part a i m = (m, [], None).
Proof.
  intros Hal. unfold asset_part. rewrite Hal.
  rewrite (bool_decide_eq_true_2 ("" = "")) by reflexivity.
  rewrite andb_false_r. reflexivity.
Qed.

(** The key whose presence makes the asset part skip the lookup. *)
Lemma asset_part_has_misspelt_id a i m id :
  str_at m "assset_id" = id -> id <> "" -> asset_part a i m = (m, [], None).
Proof.
  intros Hid Hne. unfold asset_part. rewrite Hid.
  rewrite bool_decide_eq_false_2 by assumption. reflexivity.
Qed.

Lemma account_part_resolves a i m alias :
  str_at m "account_id" = "" -> str_at m "account_alias" = alias -> alias <> "" ->
  account_part a i m =
    match accounts_FindByAlias a alias with
    | Err err => (m, [AccountLookup alias],
                  Some (WithDetail err (account_detail alias i)))
    | Ok acc => (<["account_id" := VString (account_ID acc)]> m,
                 [AccountLookup alias], None)
    end.
Proof.
  intros Hid Hal Hne. unfold account_part. rewrite Hid, Hal.
  rewrite bool_decide_eq_true_2 by reflexivity.
  rewrite bool_decide_eq_false_2 by assumption. reflexivity.
Qed.

Lemma account_part_has_id a i m id :
  str_at m "account_id" = id -> id <> "" -> account_part a i m = (m, [], None).
Proof.
  intros Hid Hne. unfold account_part. rewrite Hid.
  rewrite bool_decide_eq_false_2 by assumption. reflexivity.
Qed.

(** The account part never touches the key [asset_id]. *)
Lemma account_part_keeps_asset_id a i m :
  (account_part a i m).1.1 !! "asset_id" = m !! "asset_id".
Proof.
  unfold account_part.
  destruct (bool_decide _ && negb _); [|reflexivity].
  destruct (accounts_FindByAlias a _); simpl; [|reflexivity].
  rewrite lookup_insert_ne; [reflexivity | discriminate].
Qed.

(** The loop keeps the number of actions. *)
Lemma loop_length a acts : forall i, length (loop a i acts).1.1 = length acts.
Proof.
  induction acts as [|m rest IH]; intros i; simpl; [reflexivity|].
  destruct (body a i m) as [[m' c] [e|]]; simpl; [reflexivity|].
  specialize (IH (S i)). destruct (loop a (S i) rest) as [[rest' c'] r].
  simpl in *. congruence.
Qed.

(** The loop over a concatenation: it runs on the second part, at the
    shifted indices, exactly when the first part raised no error; otherwise
    the second part is left as it was. *)
Lemma loop_app a pre post : forall i,
  loop a i (pre ++ post) =
    match loop a i pre with
    | (pre', c, Some e) => (pre' ++ post, c, Some e)
    | (pre', c, None) =>
        match loop a (i + length pre) post with
        | (post', c', r) => (pre' ++ post', (c ++ c')%list, r)
        end
    end.
Proof.
  induction pre as [|m rest IH]; intros i; simpl.
  - rewrite Nat.add_0_r. destruct (loop a i post) as [[post' c'] r]. reflexivity.
  - destruct (body a i m) as [[m' c] [e|]]; [reflexivity|].
    rewrite IH. replace (i + S (length rest)) with (S i + length rest) by lia.
    destruct (loop a (S i) rest) as [[rest' c1] [e|]]; [reflexivity|].
    destruct (loop a (S i + length rest) post) as [[post' c2] r].
    simpl. rewrite app_assoc. reflexivity.
Qed.

(** The first action of the loop's result is what the body made of it. *)
Lemma loop_head a i m rest :
  (loop a i (m :: rest)).1.1 !! 0 = Some (body a i m).1.1.
Proof.
  simpl. destruct (body a i m) as [[m' c] [e|]]; [reflexivity|].
  destruct (loop a (S i) rest) as [[rest' c'] r]. reflexivity.
Qed.

(** C10: an action with a non-empty string under [asset_alias] has its asset
    alias resolved although it already carries a non-empty [asset_id]: the
    guard reads the key [assset_id], so the registry is asked, and on success
    [asset_id] is overwritten with the asset found (on failure the error is
    returned); this holds of the asset part of the loop body and of
    [filterAliases] whenever the loop reaches the action.  An action with a
    non-empty [account_id], by contrast, skips the account lookup and is left
    as it is; so does, for the asset lookup, an action with a non-empty
    string under [assset_id]. *)
Theorem asset_id_does_not_gate_resolution a m alias id :
  m !! "asset_alias" = Some (VString alias) -> alias <> "" ->
  m !! "asset_id" = Some (VString id) -> id <> "" ->
  str_at m "assset_id" = "" ->
  (forall i,
     asset_part a i m =
       match assets_FindByAlias a alias with
       | Err err => (m, [AssetLookup alias],
                     Some (WithDetail err (asset_detail alias i)))
       | Ok asset => (<["asset_id" := VAssetID (asset_AssetID asset)]> m,
                      [AssetLookup alias], None)
       end)
  /\ (forall (br : BuildRequest AssetID TxData) pre post,
        Actions br = pre ++ m :: post ->
        (loop a 0 pre).2 = None ->
        AssetLookup alias ∈ (filterAliases a br).1.2
        /\ match assets_FindByAlias a alias with
           | Err err =>
               (filterAliases a br).2
                 = Some (WithDetail err (asset_detail alias (length pre)))
           | Ok asset =>
               exists m', Actions (filterAliases a br).1.1 !! length pre = Some m'
                 /\ m' !! "asset_id" = Some (VAssetID (asset_AssetID asset))
           end)
  /\ (forall i m' accid,
        m' !! "account_id" = Some (VString accid) -> accid <> "" ->
        account_part a i m' = (m', [], None))
  /\ (forall i m' tid,
        m' !! "assset_id" = Some (VString tid) -> tid <> "" ->
        asset_part a i m' = (m', [], None)).
Proof.
  intros Hal Hne Hid Hidne Htypo.
  assert (Hpart : forall i,
     asset_part a i m =
       match assets_FindByAlias a alias with
       | Err err => (m, [AssetLookup alias],
                     Some (WithDetail err (asset_detail alias i)))
       | Ok asset => (<["asset_id" := VAssetID (asset_AssetID asset)]> m,
                      [AssetLookup alias], None)
       end).
  { intros i. apply asset_part_resolves; auto using str_at_string. }
  split; [exact Hpart|]. split.
  - intros br pre post Hacts Hpre. unfold filterAliases. rewrite Hacts, loop_app.
    pose proof (loop_length a pre 0) as Hlen.
    destruct (loop a 0 pre) as [[pre' c] r0]. simpl in Hpre, Hlen. subst r0.
    simpl. unfold body. rewrite Hpart.
    destruct (assets_FindByAlias a alias) as [asset|err]; simpl.
    + pose proof (account_part_keeps_asset_id a (length pre)
                    (<["asset_id" := VAssetID (asset_AssetID asset)]> m)) as Hk.
      rewrite lookup_insert_eq in Hk.
      destruct (account_part a (length pre) _) as [[m2 c2] r2]. simpl in Hk.
      assert (Hmid : forall rest, (pre' ++ m2 :: rest) !! length pre = Some m2).
      { intros rest. rewrite <- Hlen. apply list_lookup_middle. reflexivity. }
      destruct r2 as [e|]; simpl.
      * split; [set_solver|]. exists m2. auto.
      * destruct (loop a (S (length pre)) post) as [[post' c'] r]. simpl.
        split; [set_solver|]. exists m2. auto.
    + split; [set_solver|reflexivity].
  - split.
    + intros i m' accid Hacc Haccne.
      apply account_part_has_id with (id := accid); auto using str_at_string.
    + intros i m' tid Htid Htidne.
      apply asset_part_has_misspelt_id with (id := tid);
        auto using str_at_string.
Qed.

(** C9, as the code has it: a request of two actions, one with an unknown
    asset alias (and no id under the key the guard reads) and one with a valid
    account alias only.  In either order [filterAliases] returns the registry's
    error with the detail naming the unknown alias and the index of its
    action.  When the account action comes second it is left untouched and not
    looked up; when it comes first it has been resolved in place before the
    error: the caller finds [account_id] set on it.  In a longer request
    whose actions before the failing one resolve, the error names that index,
    the actions after it are untouched and those before it are as the loop
    left them. *)
Theorem unknown_asset_alias_error a bad good alias acct (e : error) acc
    (tx : option TxData) (ttl : Z) :
  bad !! "asset_alias" = Some (VString alias) -> alias <> "" ->
  str_at bad "assset_id" = "" ->
  assets_FindByAlias a alias = Err e ->
  good !! "account_alias" = Some (VString acct) -> acct <> "" ->
  str_at good "account_id" = "" -> str_at good "asset_alias" = "" ->
  accounts_FindByAlias a acct = Ok acc ->
  filterAliases a {| Tx := tx; Actions := [bad; good]; TTL := ttl |}
    = ({| Tx := tx; Actions := [bad; good]; TTL := ttl |},
       [AssetLookup alias],
       Some (WithDetail e (asset_detail alias 0)))
  /\ filterAliases a {| Tx := tx; Actions := [good; bad]; TTL := ttl |}
    = ({| Tx := tx;
          Actions := [<["account_id" := VString (account_ID acc)]> good; bad];
          TTL := ttl |},
       [AccountLookup acct; AssetLookup alias],
       Some (WithDetail e (asset_detail alias 1)))
  /\ (forall pre post,
        (loop a 0 pre).2 = None ->
        filterAliases a {| Tx := tx; Actions := pre ++ bad :: post;
                           TTL := ttl |}
          = ({| Tx := tx; Actions := (loop a 0 pre).1.1 ++ bad :: post;
                TTL := ttl |},
             (loop a 0 pre).1.2 ++ [AssetLookup alias],
             Some (WithDetail e (asset_detail alias (length pre))))).
Proof.
  intros Hal Hne Htypo Hfind Hacct Hacctne Hnoid Hnoasset Hfound.
  assert (Hbad : forall i, body a i bad
            = (bad, [AssetLookup alias],
               Some (WithDetail e (asset_detail alias i)))).
  { intros i. unfold body.
    rewrite (asset_part_resolves a i bad alias); auto using str_at_string.
    rewrite Hfind. reflexivity. }
  assert (Hgood : forall i, body a i good
            = (<["account_id" := VString (account_ID acc)]> good,
               [AccountLookup acct], None)).
  { intros i. unfold body. rewrite asset_part_skips by assumption.
    rewrite (account_part_resolves a i good acct); auto using str_at_string.
    rewrite Hfound. reflexivity. }
  split; [|split]; unfold filterAliases; simpl.
  - rewrite Hbad. reflexivity.
  - rewrite Hgood, Hbad. reflexivity.
  - intros pre post Hpre. rewrite loop_app.
    destruct (loop a 0 pre) as [[pre' c] r0]. simpl in Hpre. subst r0.
    simpl. rewrite Hbad. reflexivity.
Qed.

End Facts.

Example asset_detail_gold : asset_detail "gold" 12 = "invalid asset alias gold on action 12".
Proof. reflexivity. Qed.

Example filterAliases_resolves_both :
  (filterAliases demo_reactor
     {| Tx := @None unit; Actions := [retire_action; spend_action];
        TTL := 0 |}).2 = None
  /\ (filterAliases demo_reactor
        {| Tx := @None unit; Actions := [retire_action; spend_action];
           TTL := 0 |}).1.2 = [AssetLookup "silver"; AccountLookup "alice"].
Proof. split; reflexivity. Qed.

(** C10 at the demo reactor: [retire_action] carries the id [ffff] and the
    alias [silver]; the alias is looked up and the id replaced. *)
Lemma asset_id_does_not_gate_resolution_witness :
  asset_part demo_reactor 0 retire_action
    = (<["asset_id" := VAssetID "a1"]> retire_action,
       [AssetLookup "silver"], None).
Proof.
  apply (proj1 (asset_id_does_not_gate_resolution (TxData := unit)
                  demo_reactor retire_action "silver" "ffff"
                  eq_refl ltac:(discriminate) eq_refl ltac:(discriminate)
                  eq_refl)).
Defined.

(** C9 at the demo reactor, with [issue_action] (unknown alias [gold]) and
    [spend_action] (account alias [alice]). *)
Lemma unknown_asset_alias_error_witness :
  filterAliases demo_reactor
      {| Tx := @None unit; Actions := [issue_action; spend_action]; TTL := 0 |}
    = ({| Tx := None; Actions := [issue_action; spend_action]; TTL := 0 |},
       [AssetLookup "gold"],
       Some (WithDetail "not found" (asset_detail "gold" 0)))
  /\ filterAliases demo_reactor demo_request
    = ({| Tx := None;
          Actions := [<["account_id" := VString "acc0"]> spend_action;
                      issue_action];
          TTL := 0 |},
       [AccountLookup "alice"; AssetLookup "gold"],
       Some (WithDetail "not found" (asset_detail "gold" 1))).
Proof.
  destruct (unknown_asset_alias_error (TxData := unit)
              demo_reactor issue_action spend_action
              "gold" "alice" "not found" {| account_ID := "acc0" |} None 0%Z
              eq_refl ltac:(discriminate) eq_refl eq_refl
              eq_refl ltac:(discriminate) eq_refl eq_refl eq_refl)
    as (Hafter & Hbefore & _).
  split; [exact Hafter | exact Hbefore].
Defined.

(** C9 as stated fails on [demo_request]: its action 0 refers to the valid
    account alias [alice] and its action 1 to the unknown asset alias [gold]
    (neither has an id).  The error names [gold] and index 1, but action 0 is
    not what it was: [account_id] has been written into it. *)
Lemma filterAliases_mutates_before_error :
  Actions demo_request = [spend_action; issue_action]
  /\ accounts_FindByAlias demo_reactor "alice" = Ok {| account_ID := "acc0" |}
  /\ assets_FindByAlias demo_reactor "gold" = Err "not found"
  /\ (filterAliases demo_reactor demo_request).2
       = Some (WithDetail "not found" "invalid asset alias gold on action 1")
  /\ Actions (filterAliases demo_reactor demo_request).1.1 !! 0
       = Some (<["account_id" := VString "acc0"]> spend_action)
  /\ Actions (filterAliases demo_reactor demo_request).1.1 !! 0
       <> Actions demo_request !! 0.
Proof.
  repeat split; try reflexivity.
  intros H. apply (f_equal (fun o => o ≫= (.!! "account_id"))) in H.
  vm_compute in H. discriminate.
Qed.

(** ** Further properties of [filterAliases] *)

Section Further.

Context {error AssetID TxData : Type}.
Implicit Types (a : BlockchainReactor error AssetID).
Implicit Types (m : gmap string (Value AssetID)).
Implicit Types (acts : list (gmap string (Value AssetID))).

(** The guards of lines 27 and 37. *)
Definition asset_guard m : bool :=
  bool_decide (str_at m "assset_id" = "")
  && negb (bool_decide (str_at m "asset_alias" = "")).

Definition account_guard m : bool :=
  bool_decide (str_at m "account_id" = "")
  && negb (bool_decide (str_at m "account_alias" = "")).

(** What the loop body may change in an action: the two id keys, and those
    only by writing the id a registry returned. *)
Definition touched_ids_only m m' : Prop :=
  (forall k, k <> "asset_id" -> k <> "account_id" -> m' !! k = m !! k)
  /\ (m' !! "asset_id" = m !! "asset_id"
      \/ exists x, m' !! "asset_id" = Some (VAssetID x))
  /\ (m' !! "account_id" = m !! "account_id"
      \/ exists x, m' !! "account_id" = Some (VString x)).

(** What a successful pass of the body has done to an action. *)
Definition resolved a m m' : Prop :=
  (if asset_guard m
   then exists asset,
          assets_FindByAlias a (str_at m "asset_alias") = Ok asset
          /\ m' !! "asset_id" = Some (VAssetID (asset_AssetID asset))
   else m' !! "asset_id" = m !! "asset_id")
  /\ (if account_guard m
      then exists acc,
             accounts_FindByAlias a (str_at m "account_alias") = Ok acc
             /\ m' !! "account_id" = Some (VString (account_ID acc))
      else m' !! "account_id" = m !! "account_id").

Lemma account_guard_insert_asset_id m v :
  account_guard (<["asset_id" := v]> m) = account_guard m.
Proof.
  unfold account_guard. rewrite !str_at_insert_ne by discriminate. reflexivity.
Qed.

Lemma asset_guard_insert_ids m k v :
  k = "asset_id" \/ k = "account_id" ->
  asset_guard (<[k := v]> m) = asset_guard m
  /\ str_at (<[k := v]> m) "asset_alias" = str_at m "asset_alias".
Proof.
  intros [-> | ->]; unfold asset_guard;
    rewrite !str_at_insert_ne by discriminate; auto.
Qed.

(** The body, by the cases of its two guards and two lookups. *)
Lemma body_unfold a i m :
  body a i m =
    if asset_guard m then
      match assets_FindByAlias a (str_at m "asset_alias") with
      | Err err =>
          (m, [AssetLookup (str_at m "asset_alias")],
           Some (WithDetail err (asset_detail (str_at m "asset_alias") i)))
      | Ok asset =>
          let m1 := <["asset_id" := VAssetID (asset_AssetID asset)]> m in
          if account_guard m then
            match accounts_FindByAlias a (str_at m "account_alias") with
            | Err err =>
                (m1, [AssetLookup (str_at m "asset_alias");
                      AccountLookup (str_at m "account_alias")],
                 Some (WithDetail err
                         (account_detail (str_at m "account_alias") i)))
            | Ok acc =>
                (<["account_id" := VString (account_ID acc)]> m1,
                 [AssetLookup (str_at m "asset_alias");
                  AccountLookup (str_at m "account_alias")], None)
            end
          else (m1, [AssetLookup (str_at m "asset_alias")], None)
      end
    else if account_guard m then
      match accounts_FindByAlias a (str_at m "account_alias") with
      | Err err =>
          (m, [AccountLookup (str_at m "account_alias")],
           Some (WithDetail err (account_detail (str_at m "account_alias") i)))
      | Ok acc =>
          (<["account_id" := VString (account_ID acc)]> m,
           [AccountLookup (str_at m "account_alias")], None)
      end
    else (m, [], None).
Proof.
  unfold body, asset_part. fold (asset_guard m).
  destruct (asset_guard m).
  - destruct (assets_FindByAlias a _) as [asset|err]; [|reflexivity].
    unfold account_part.
    fold (account_guard (<["asset_id" := VAssetID (asset_AssetID asset)]> m)).
    rewrite account_guard_insert_asset_id.
    rewrite !str_at_insert_ne by discriminate.
    destruct (account_guard m); [|reflexivity].
    destruct (accounts_FindByAlias a _); reflexivity.
  - unfold account_part. fold (account_guard m).
    destruct (account_guard m); [|reflexivity].
    destruct (accounts_FindByAlias a _); reflexivity.
Qed.

Lemma body_touched_ids_only a i m : touched_ids_only m (body a i m).1.1.
Proof.
  rewrite body_unfold. unfold touched_ids_only.
  destruct (asset_guard m); [destruct (assets_FindByAlias a _)|];
    try destruct (account_guard m); try destruct (accounts_FindByAlias a _);
    simpl; repeat split; intros;
    rewrite ?lookup_insert_eq, ?lookup_insert_ne by (discriminate || congruence);
    rewrite ?lookup_insert_eq; eauto.
Qed.

Lemma body_resolved a i m m' c :
  body a i m = (m', c, None) -> resolved a m m'.
Proof.
  rewrite body_unfold. unfold resolved.
  destruct (asset_guard m); [destruct (assets_FindByAlias a _) eqn:Ha|];
    try destruct (account_guard m);
    try destruct (accounts_FindByAlias a _) eqn:Hc;
    intros H; inversion H; subst; clear H; split;
    rewrite ?lookup_insert_eq, ?lookup_insert_ne by discriminate;
    rewrite ?lookup_insert_eq; eauto.
Qed.

Lemma loop_touched_ids_only a acts : forall i,
  Forall2 touched_ids_only acts (loop a i acts).1.1.
Proof.
  induction acts as [|m rest IH]; intros i; simpl; [constructor|].
  pose proof (body_touched_ids_only a i m) as Hb.
  destruct (body a i m) as [[m' c] [e|]]; simpl in *.
  - constructor; [exact Hb|]. apply Forall2_same_length_lookup_2; [reflexivity|].
    intros j x y Hx Hy. assert (x = y) by congruence. subst y.
    repeat split; auto.
  - specialize (IH (S i)). destruct (loop a (S i) rest) as [[rest' c'] r].
    constructor; assumption.
Qed.

Lemma loop_resolved a acts : forall i acts' c,
  loop a i acts = (acts', c, None) -> Forall2 (resolved a) acts acts'.
Proof.
  induction acts as [|m rest IH]; intros i acts' c; simpl.
  - intros H; inversion H; constructor.
  - destruct (body a i m) as [[m' c1] [e|]] eqn:Hb; [discriminate|].
    destruct (loop a (S i) rest) as [[rest' c'] r] eqn:Hl.
    intros H; inversion H; subst; clear H.
    constructor; [eapply body_resolved; eauto | eapply IH; eauto].
Qed.

(** X1: whatever the outcome, [filterAliases] keeps [Tx], [TTL] and the
    number of actions; in each action every key other than [asset_id] and
    [account_id] keeps its value, [asset_id] is either as before or an asset
    id, and [account_id] is either as before or a string: nothing is removed
    and no other key is written. *)
Theorem filterAliases_touches_ids_only a (br : BuildRequest AssetID TxData) :
  Tx (filterAliases a br).1.1 = Tx br
  /\ TTL (filterAliases a br).1.1 = TTL br
  /\ length (Actions (filterAliases a br).1.1) = length (Actions br)
  /\ (forall i m', Actions (filterAliases a br).1.1 !! i = Some m' ->
        exists m, Actions br !! i = Some m
          /\ (forall k, k <> "asset_id" -> k <> "account_id" ->
                m' !! k = m !! k)
          /\ (m' !! "asset_id" = m !! "asset_id"
              \/ exists x, m' !! "asset_id" = Some (VAssetID x))
          /\ (m' !! "account_id" = m !! "account_id"
              \/ exists x, m' !! "account_id" = Some (VString x))).
Proof.
  unfold filterAliases.
  pose proof (loop_touched_ids_only a (Actions br) 0) as Hf.
  destruct (loop a 0 (Actions br)) as [[acts' c] r]. simpl in *.
  split; [reflexivity|]. split; [reflexivity|]. split.
  - symmetry. eapply Forall2_length; eauto.
  - intros i m' Hi. destruct (Forall2_lookup_r _ _ _ _ _ Hf Hi) as (m & Hm & Ht).
    exists m. split; [exact Hm | exact Ht].
Qed.

(** X2: a request in which no action has a non-empty string under
    [asset_alias] or [account_alias] (the key is absent, empty, or not a
    string) comes back unchanged, with no error and without a registry being
    asked; the empty request is one such. *)
Theorem filterAliases_without_aliases a (br : BuildRequest AssetID TxData) :
  (forall m, m ∈ Actions br ->
     str_at m "asset_alias" = "" /\ str_at m "account_alias" = "") ->
  filterAliases a br = (br, [], None).
Proof.
  intros Hno. unfold filterAliases.
  assert (Hloop : forall acts i,
            (forall m, m ∈ acts ->
               str_at m "asset_alias" = "" /\ str_at m "account_alias" = "") ->
            loop a i acts = (acts, [], None)).
  { induction acts as [|m rest IH]; intros i Hacts; simpl; [reflexivity|].
    destruct (Hacts m) as [Has Hac]; [left|].
    rewrite body_unfold. unfold asset_guard, account_guard.
    rewrite Has, Hac. rewrite !andb_false_r.
    rewrite IH; [reflexivity|]. intros m0 Hm0. apply Hacts. right. exact Hm0. }
  rewrite Hloop by exact Hno. destruct br. reflexivity.
Qed.

(** X3: when [filterAliases] returns no error, every action whose asset
    guard held (no string under [assset_id], a non-empty [asset_alias]) now
    carries under [asset_id] the id of the asset its registry returned for
    that alias, and every action whose account guard held (no [account_id],
    a non-empty [account_alias]) carries under [account_id] the id of the
    account found; where a guard did not hold, that key is as it was. *)
Theorem filterAliases_success_resolves a (br br' : BuildRequest AssetID TxData)
    c i m :
  filterAliases a br = (br', c, None) ->
  Actions br !! i = Some m ->
  exists m', Actions br' !! i = Some m'
    /\ (if asset_guard m
        then exists asset,
               assets_FindByAlias a (str_at m "asset_alias") = Ok asset
               /\ m' !! "asset_id" = Some (VAssetID (asset_AssetID asset))
        else m' !! "asset_id" = m !! "asset_id")
    /\ (if account_guard m
        then exists acc,
               accounts_FindByAlias a (str_at m "account_alias") = Ok acc
               /\ m' !! "account_id" = Some (VString (account_ID acc))
        else m' !! "account_id" = m !! "account_id").
Proof.
  unfold filterAliases.
  destruct (loop a 0 (Actions br)) as [[acts' c0] r] eqn:Hl.
  intros H Hi. inversion H; subst; clear H.
  pose proof (loop_resolved a _ _ _ _ Hl) as Hf.
  destruct (Forall2_lookup_l _ _ _ _ _ Hf Hi) as (m' & Hm' & Hr).
  exists m'. split; [exact Hm' | exact Hr].
Qed.

(** Where a failing loop stopped. *)
Lemma loop_error_position a acts : forall i acts' c e,
  loop a i acts = (acts', c, Some e) ->
  exists pre m post,
    acts = pre ++ m :: post
    /\ (loop a i pre).2 = None
    /\ (body a (i + length pre) m).2 = Some e
    /\ acts' = (loop a i pre).1.1 ++ (body a (i + length pre) m).1.1 :: post.
Proof.
  induction acts as [|m rest IH]; intros i acts' c e; simpl; [discriminate|].
  destruct (body a i m) as [[m' c1] [e1|]] eqn:Hb.
  - intros H; inversion H; subst; clear H.
    exists [], m, rest. simpl. rewrite Nat.add_0_r, Hb. auto.
  - destruct (loop a (S i) rest) as [[rest' c'] r] eqn:Hl.
    intros H; inversion H; subst; clear H.
    destruct (IH _ _ _ _ Hl) as (pre & m0 & post & -> & Hpre & Hbody & ->).
    exists (m :: pre), m0, post. simpl. rewrite Hb.
    replace (i + S (length pre)) with (S i + length pre) by lia.
    destruct (loop a (S i) pre) as [[pre' c2] r2]. simpl in *. subst r2.
    auto.
Qed.

(** X4: an error of [filterAliases] comes from the first action whose
    lookup fails: the actions before it resolved, the actions after it are
    as they were, and the error is the registry's error for that action's
    alias, its detail naming the alias and the action's index.  When the
    asset lookup failed the action itself is untouched. *)
Theorem filterAliases_error_is_first_failure a
    (br br' : BuildRequest AssetID TxData) c e :
  filterAliases a br = (br', c, Some e) ->
  exists pre m post,
    Actions br = pre ++ m :: post
    /\ (loop a 0 pre).2 = None
    /\ Actions br' = (loop a 0 pre).1.1 ++ (body a (length pre) m).1.1 :: post
    /\ ((asset_guard m = true
         /\ assets_FindByAlias a (str_at m "asset_alias") = Err (cause e)
         /\ detail e = asset_detail (str_at m "asset_alias") (length pre)
         /\ (body a (length pre) m).1.1 = m)
        \/ (account_guard m = true
            /\ accounts_FindByAlias a (str_at m "account_alias")
                 = Err (cause e)
            /\ detail e
                 = account_detail (str_at m "account_alias") (length pre))).
Proof.
  unfold filterAliases.
  destruct (loop a 0 (Actions br)) as [[acts' c0] r] eqn:Hl.
  intros H; inversion H; subst; clear H.
  destruct (loop_error_position a _ _ _ _ _ Hl)
    as (pre & m & post & Hacts & Hpre & Hbody & Hout).
  simpl in Hbody, Hout. exists pre, m, post.
  split; [exact Hacts|]. split; [exact Hpre|]. split; [exact Hout|].
  revert Hbody. rewrite body_unfold.
  destruct (asset_guard m); [destruct (assets_FindByAlias a _) eqn:Ha|];
    try destruct (account_guard m);
    try destruct (accounts_FindByAlias a _) eqn:Hc;
    simpl; intros Hbody; inversion Hbody; subst; simpl; auto.
Qed.

(** X5: an action whose asset alias resolves and whose account alias does
    not is left half resolved: [filterAliases] returns the account error for
    its index, and the action it hands back to the caller already carries the
    asset id. *)
Theorem account_failure_keeps_asset_id a (br : BuildRequest AssetID TxData)
    pre m post asset err :
  Actions br = pre ++ m :: post ->
  (loop a 0 pre).2 = None ->
  asset_guard m = true ->
  assets_FindByAlias a (str_at m "asset_alias") = Ok asset ->
  account_guard m = true ->
  accounts_FindByAlias a (str_at m "account_alias") = Err err ->
  (filterAliases a br).2
    = Some (WithDetail err
              (account_detail (str_at m "account_alias") (length pre)))
  /\ Actions (filterAliases a br).1.1 !! length pre
       = Some (<["asset_id" := VAssetID (asset_AssetID asset)]> m)
  /\ (forall j x, post !! j = Some x ->
        Actions (filterAliases a br).1.1 !! (length pre + S j) = Some x).
Proof.
  intros Hacts Hpre Hga Ha Hgc Hc. unfold filterAliases.
  rewrite Hacts, loop_app.
  pose proof (loop_length a pre 0) as Hlen.
  destruct (loop a 0 pre) as [[pre' c0] r0]. simpl in Hpre, Hlen. subst r0.
  simpl. rewrite body_unfold, Hga, Ha. simpl. rewrite Hgc, Hc. simpl.
  split; [reflexivity|]. split.
  - rewrite <- Hlen. apply list_lookup_middle. reflexivity.
  - intros j x Hj. rewrite <- Hlen.
    rewrite lookup_app_r by lia.
    replace (length pre' + S j - length pre') with (S j) by lia.
    exact Hj.
Qed.

(** The asset lookups among the registry calls. *)
Definition asset_lookups (c : list Lookup) : list Lookup :=
  List.filter (fun l => match l with
                        | AssetLookup _ => true
                        | AccountLookup _ => false
                        end) c.

Lemma str_at_same m m' k : m' !! k = m !! k -> str_at m' k = str_at m k.
Proof. unfold str_at. intros ->. reflexivity. Qed.

(** The registry calls of a successful pass of the body. *)
Lemma body_success_lookups a i m m' c :
  body a i m = (m', c, None) ->
  c = (if asset_guard m then [AssetLookup (str_at m "asset_alias")] else [])
      ++ (if account_guard m
          then [AccountLookup (str_at m "account_alias")] else []).
Proof.
  rewrite body_unfold.
  destruct (asset_guard m); [destruct (assets_FindByAlias a _)|];
    try destruct (account_guard m); try destruct (accounts_FindByAlias a _);
    intros H; inversion H; reflexivity.
Qed.

(** A second pass of the body over an action it has resolved. *)
Lemma body_again a i j m m' c :
  body a i m = (m', c, None) ->
  exists c', body a j m' = (m', c', None)
    /\ ((forall alias acc, accounts_FindByAlias a alias = Ok acc ->
           account_ID acc <> "") ->
        c' = asset_lookups c).
Proof.
  intros Hb.
  pose proof (body_resolved a i m m' c Hb) as [Hra Hrc].
  pose proof (body_touched_ids_only a i m) as (Hframe & _ & _).
  rewrite Hb in Hframe. simpl in Hframe.
  rewrite (body_success_lookups a i m m' c Hb).
  assert (Hal : str_at m' "asset_alias" = str_at m "asset_alias")
    by (apply str_at_same, Hframe; discriminate).
  assert (Hcl : str_at m' "account_alias" = str_at m "account_alias")
    by (apply str_at_same, Hframe; discriminate).
  assert (Hga : asset_guard m' = asset_guard m).
  { unfold asset_guard. rewrite Hal.
    rewrite (str_at_same m m' "assset_id") by (apply Hframe; discriminate).
    reflexivity. }
  (* the asset part of the second pass leaves [m'] as it is *)
  assert (Hfirst : exists c1,
            asset_part a j m' = (m', c1, None)
            /\ c1 = if asset_guard m
                    then [AssetLookup (str_at m "asset_alias")] else []).
  { unfold asset_part. fold (asset_guard m'). rewrite Hga, Hal.
    destruct (asset_guard m).
    - destruct Hra as (asset & -> & Hid). eexists. split; [|reflexivity].
      rewrite insert_id by exact Hid. reflexivity.
    - eexists. split; reflexivity. }
  destruct Hfirst as (c1 & Hpart & ->).
  unfold body. rewrite Hpart. unfold account_part. fold (account_guard m').
  rewrite Hcl. unfold asset_lookups. rewrite List.filter_app.
  destruct (account_guard m) eqn:Hgc.
  - destruct Hrc as (acc & Hfound & Hid).
    assert (Hsid : str_at m' "account_id" = account_ID acc)
      by (apply str_at_string; exact Hid).
    unfold account_guard at 1. rewrite Hsid, Hcl.
    apply andb_true_iff in Hgc as [_ Hne]. rewrite Hne.
    destruct (bool_decide (account_ID acc = "")) eqn:Hempty; simpl.
    + rewrite Hfound. rewrite insert_id by exact Hid.
      eexists. split; [reflexivity|]. intros Hnonempty.
      apply bool_decide_eq_true_1 in Hempty.
      exfalso. eapply Hnonempty; eauto.
    + eexists. split; [reflexivity|]. intros _.
      destruct (asset_guard m); reflexivity.
  - assert (Hgc' : account_guard m' = false).
    { unfold account_guard in *. rewrite Hcl.
      rewrite (str_at_same m m' "account_id") by exact Hrc. exact Hgc. }
    rewrite Hgc'. eexists. split; [reflexivity|]. intros _.
    destruct (asset_guard m); reflexivity.
Qed.

Lemma loop_again a acts : forall i j acts' c,
  loop a i acts = (acts', c, None) ->
  exists c', loop a j acts' = (acts', c', None)
    /\ ((forall alias acc, accounts_FindByAlias a alias = Ok acc ->
           account_ID acc <> "") ->
        c' = asset_lookups c).
Proof.
  induction acts as [|m rest IH]; intros i j acts' c; simpl.
  - intros H; inversion H; subst. exists []. auto.
  - destruct (body a i m) as [[m' c1] [e|]] eqn:Hb; [discriminate|].
    destruct (loop a (S i) rest) as [[rest' c2] r] eqn:Hl.
    intros H; inversion H; subst; clear H.
    destruct (body_again a i j m m' c1 Hb) as (c1' & Hb' & Hc1).
    destruct (IH (S i) (S j) rest' c2 Hl) as (c2' & Hl' & Hc2).
    exists (c1' ++ c2'). simpl. rewrite Hb', Hl'. split; [reflexivity|].
    intros Hne. unfold asset_lookups in *. rewrite List.filter_app.
    rewrite Hc1, Hc2 by exact Hne. reflexivity.
Qed.

(** X6: [filterAliases] is idempotent on what it has resolved: run again on
    the request a successful run returned, it succeeds and returns that
    request unchanged.  If the account registry never returns an empty id,
    the second run makes no account lookup, but it repeats every asset lookup
    of the first run, since the asset id it wrote is not what the guard
    reads. *)
Theorem filterAliases_idempotent a (br br' : BuildRequest AssetID TxData) c :
  filterAliases a br = (br', c, None) ->
  exists c', filterAliases a br' = (br', c', None)
    /\ ((forall alias acc, accounts_FindByAlias a alias = Ok acc ->
           account_ID acc <> "") ->
        c' = asset_lookups c).
Proof.
  unfold filterAliases.
  destruct (loop a 0 (Actions br)) as [[acts' c0] r] eqn:Hl.
  intros H; inversion H; subst; clear H. simpl.
  destruct (loop_again a _ 0 0 _ _ Hl) as (c' & Hl' & Hc').
  exists c'. rewrite Hl'. split; [reflexivity | exact Hc'].
Qed.

End Further.

(** X2 on a request whose only aliases are a number and an empty string. *)
Lemma filterAliases_without_aliases_witness :
  filterAliases demo_reactor
      {| Tx := @None unit; Actions := [odd_action; ∅]; TTL := 0 |}
    = ({| Tx := None; Actions := [odd_action; ∅]; TTL := 0 |}, [], None).
Proof.
  apply filterAliases_without_aliases. intros m Hm.
  apply elem_of_cons in Hm as [-> | Hm]; [split; reflexivity|].
  apply list_elem_of_singleton in Hm as ->. split; reflexivity.
Defined.

(** X3 on [resolvable_request]: its first action ends with the id of
    [silver]. *)
Lemma filterAliases_success_resolves_witness :
  exists m', Actions (filterAliases demo_reactor resolvable_request).1.1 !! 0
               = Some m'
    /\ m' !! "asset_id" = Some (VAssetID "a1").
Proof.
  destruct (filterAliases_success_resolves demo_reactor resolvable_request
              (filterAliases demo_reactor resolvable_request).1.1
              (filterAliases demo_reactor resolvable_request).1.2
              0 retire_action eq_refl eq_refl) as (m' & Hm' & Hasset & _).
  exists m'. split; [exact Hm'|].
  change (asset_guard retire_action) with true in Hasset.
  destruct Hasset as (asset & Hfind & Hid).
  inversion Hfind; subst. exact Hid.
Defined.

(** X4 on [demo_request]: the failure is at index 1. *)
Lemma filterAliases_error_is_first_failure_witness :
  exists pre m post,
    Actions demo_request = pre ++ m :: post
    /\ (loop demo_reactor 0 pre).2 = None
    /\ ("invalid asset alias gold on action 1"
          = asset_detail (str_at m "asset_alias") (length pre)
        \/ "invalid asset alias gold on action 1"
             = account_detail (str_at m "account_alias") (length pre)).
Proof.
  destruct (filterAliases_error_is_first_failure demo_reactor demo_request
              (filterAliases demo_reactor demo_request).1.1
              (filterAliases demo_reactor demo_request).1.2
              (WithDetail "not found" "invalid asset alias gold on action 1")
              eq_refl)
    as (pre & m & post & Hacts & Hpre & _ & [(_ & _ & Hd & _) | (_ & _ & Hd)]);
    exists pre, m, post; (split; [exact Hacts|]); (split; [exact Hpre|]);
    [left | right]; exact Hd.
Defined.

(** X5 on [mixed_action]: the error is about [bob], and the action handed
    back carries the id of [silver]. *)
Lemma account_failure_keeps_asset_id_witness :
  (filterAliases demo_reactor
     {| Tx := @None unit; Actions := [mixed_action]; TTL := 0 |}).2
    = Some (WithDetail "not found" "invalid account alias bob on action 0")
  /\ Actions (filterAliases demo_reactor
                {| Tx := @None unit; Actions := [mixed_action]; TTL := 0 |}).1.1
       !! 0
     = Some (<["asset_id" := VAssetID "a1"]> mixed_action).
Proof.
  destruct (account_failure_keeps_asset_id demo_reactor
              {| Tx := @None unit; Actions := [mixed_action]; TTL := 0 |}
              [] mixed_action [] {| asset_AssetID := "a1" |} "not found"
              eq_refl eq_refl eq_refl eq_refl eq_refl eq_refl)
    as (Herr & Hact & _).
  split; [exact Herr | exact Hact].
Defined.

(** X6 on [resolvable_request]: the second run asks for [silver] again and
    not for [alice]. *)
Lemma filterAliases_idempotent_witness :
  exists c',
    filterAliases demo_reactor
        (filterAliases demo_reactor resolvable_request).1.1
      = ((filterAliases demo_reactor resolvable_request).1.1, c', None)
    /\ c' = [AssetLookup "silver"].
Proof.
  destruct (filterAliases_idempotent demo_reactor resolvable_request
              (filterAliases demo_reactor resolvable_request).1.1
              (filterAliases demo_reactor resolvable_request).1.2 eq_refl)
    as (c' & Hrun & Hc').
  exists c'. split; [exact Hrun|]. apply Hc'.
  intros alias acc. simpl. case_bool_decide; [|discriminate].
  intros Hok; inversion Hok; subst. simpl. discriminate.
Defined.

End AliasesProps.

(* ===================================================================== *)
(** * Properties of the gate *)
(* ===================================================================== *)

Module GateProps.
Import Gate.

Section Facts.

Context {Handler : Type} (h0 : Handler).
Implicit Types (s : system Handler) (r : request Handler).

(** What a request's position says about [Set]. *)
Definition req_ok s r : Prop :=
  match r with
  | Waiting => True
  | Released => set_pc s = Finished
  | Dispatched t => t = h0 /\ set_pc s = Finished
  | NilDispatch => False
  end.

(** The invariant: the fields follow the progress of [Set], and no request
    is past [Wait] before [Set] has returned. *)
Definition gate_inv s : Prop :=
  match set_pc s with
  | NotCalled => h (wh s) = None /\ wg (wh s) = 1%Z
  | Stored => h (wh s) = Some h0 /\ wg (wh s) = 1%Z
  | Finished => h (wh s) = Some h0 /\ wg (wh s) = 0%Z
  end /\ Forall (req_ok s) (reqs s).

Lemma gate_inv_init : gate_inv init.
Proof. split; [split; reflexivity | constructor]. Qed.

Lemma req_ok_same_pc s s' r : set_pc s' = set_pc s -> req_ok s r -> req_ok s' r.
Proof. intros Hpc. destruct r; simpl; rewrite ?Hpc; auto. Qed.

(** While [Set] has not returned, every request is still waiting, so a
    change of [set_pc] cannot break [req_ok]. *)
Lemma req_ok_advance s s' r :
  set_pc s <> Finished -> req_ok s r -> req_ok s' r.
Proof. intros Hpc. destruct r; simpl; intuition congruence. Qed.

Lemma gate_inv_exec a s s' : gate_inv s -> exec h0 a s = Some s' -> gate_inv s'.
Proof.
  intros [Hf Hr] Hex. destruct a as [|i|i| |]; simpl in Hex.
  - inversion Hex; subst; clear Hex. split; simpl; [exact Hf|].
    apply Forall_app. split.
    + eapply Forall_impl; [exact Hr|]. intros r. apply req_ok_same_pc. reflexivity.
    + repeat constructor.
  - destruct (reqs s !! i) as [[| | |]|] eqn:Hi; try discriminate.
    destruct (wg (wh s) =? 0)%Z eqn:Hwg; [|discriminate].
    inversion Hex; subst; clear Hex. split; simpl; [exact Hf|].
    apply Forall_insert.
    + eapply Forall_impl; [exact Hr|]. intros r. apply req_ok_same_pc. reflexivity.
    + simpl. apply Z.eqb_eq in Hwg.
      destruct (set_pc s); destruct Hf as [_ Hf]; [lia | lia | reflexivity].
  - destruct (reqs s !! i) as [[| | |]|] eqn:Hi; try discriminate.
    inversion Hex; subst; clear Hex. split; simpl; [exact Hf|].
    assert (Hfin : set_pc s = Finished).
    { apply (Forall_lookup_1 _ _ _ _ Hr Hi). }
    apply Forall_insert.
    + eapply Forall_impl; [exact Hr|]. intros r. apply req_ok_same_pc. reflexivity.
    + rewrite Hfin in Hf. destruct Hf as [-> _]. simpl. auto.
  - destruct (set_pc s) eqn:Hpc; try discriminate.
    inversion Hex; subst; clear Hex. split; simpl; [tauto|].
    eapply Forall_impl; [exact Hr|]. intros r. apply req_ok_advance. congruence.
  - destruct (set_pc s) eqn:Hpc; try discriminate.
    destruct (0 <=? wg (wh s) - 1)%Z; [|discriminate].
    inversion Hex; subst; clear Hex. split; simpl; [split; [tauto|lia]|].
    eapply Forall_impl; [exact Hr|]. intros r. apply req_ok_advance. congruence.
Qed.

Lemma gate_inv_run sched : forall s s',
  gate_inv s -> run h0 sched s = Some s' -> gate_inv s'.
Proof.
  induction sched as [|a rest IH]; intros s s' Hinv Hrun; simpl in Hrun.
  - inversion Hrun; subst. exact Hinv.
  - destruct (exec h0 a s) as [s1|] eqn:Hex; [|discriminate].
    eapply IH; [|exact Hrun]. eapply gate_inv_exec; eauto.
Qed.

(** Under the invariant, a request that is through [Wait] is dispatched to
    the handler [Set] was given. *)
Lemma released_dispatches s i :
  gate_inv s -> reqs s !! i = Some Released ->
  exists s', run h0 [Dispatch i] s = Some s'
             /\ reqs s' !! i = Some (Dispatched h0).
Proof.
  intros [Hf Hr] Hi.
  assert (Hfin : set_pc s = Finished) by apply (Forall_lookup_1 _ _ _ _ Hr Hi).
  rewrite Hfin in Hf. destruct Hf as [Hh _].
  simpl. rewrite Hi, Hh. eexists. split; [reflexivity|]. simpl.
  apply list_lookup_insert_eq. eapply lookup_lt_Some; eauto.
Qed.

Lemma waiting_dispatches s i :
  gate_inv s -> set_pc s = Finished -> reqs s !! i = Some Waiting ->
  exists s', run h0 [WaitReturn i; Dispatch i] s = Some s'
             /\ reqs s' !! i = Some (Dispatched h0).
Proof.
  intros [Hf Hr] Hfin Hi. rewrite Hfin in Hf. destruct Hf as [Hh Hwg].
  assert (Hlt : i < length (reqs s)) by (eapply lookup_lt_Some; eauto).
  simpl. rewrite Hi, Hwg. simpl.
  rewrite list_lookup_insert_eq by assumption. rewrite Hh.
  eexists. split; [reflexivity|]. simpl.
  apply list_lookup_insert_eq. rewrite length_insert. assumption.
Qed.

Lemma run_app sched1 sched2 s :
  run h0 (sched1 ++ sched2) s
    = match run h0 sched1 s with
      | Some s1 => run h0 sched2 s1
      | None => None
      end.
Proof.
  revert s. induction sched1 as [|a rest IH]; intros s; simpl; [reflexivity|].
  destruct (exec h0 a s); [apply IH | reflexivity].
Qed.

Lemma insert_middle (done : list (request Handler)) x y todo :
  <[length done := x]> (done ++ y :: todo) = done ++ x :: todo.
Proof.
  rewrite insert_app_r_alt by lia. rewrite Nat.sub_diag. reflexivity.
Qed.

(** With the gate open, the requests from index [length done] on are served
    in turn; the fields of the gate do not change. *)
Lemma serve_all_spec todo : forall done s,
  reqs s = done ++ todo ->
  h (wh s) = Some h0 -> wg (wh s) = 0%Z ->
  Forall (fun r => r <> NilDispatch /\ forall t, r = Dispatched t -> t = h0)
         todo ->
  exists s',
    run h0 (serve_all (length done) todo) s = Some s'
    /\ reqs s' = done ++ map (fun _ => Dispatched h0) todo
    /\ wh s' = wh s /\ set_pc s' = set_pc s.
Proof.
  induction todo as [|r rest IH]; intros done s Hreqs Hh Hwg Hok.
  - exists s. simpl. auto.
  - inversion Hok as [|r' rest' [Hnil Htarget] Hrest]; subst.
    assert (Hnext : forall s1,
              reqs s1 = (done ++ [Dispatched h0]) ++ rest ->
              wh s1 = wh s -> set_pc s1 = set_pc s ->
              exists s', run h0 (serve_all (S (length done)) rest) s1 = Some s'
                /\ reqs s' = done ++ Dispatched h0
                               :: map (fun _ => Dispatched h0) rest
                /\ wh s' = wh s /\ set_pc s' = set_pc s).
    { intros s1 Hr1 Hw1 Hp1.
      destruct (IH (done ++ [Dispatched h0]) s1 Hr1) as (s' & Hrun & Hr' & Hw' & Hp');
        [congruence | congruence | exact Hrest |].
      rewrite length_app, Nat.add_1_r in Hrun.
      exists s'. rewrite <- app_assoc in Hr'. simpl in Hr'.
      repeat split; congruence. }
    simpl serve_all. rewrite run_app. destruct r as [| |t|]; simpl.
    + rewrite Hreqs, list_lookup_middle by reflexivity. rewrite Hwg. simpl.
      rewrite Hreqs. rewrite insert_middle.
      rewrite list_lookup_middle by reflexivity.
      rewrite Hh. unfold with_req. simpl. rewrite Hreqs.
      rewrite !insert_middle.
      apply Hnext; simpl; [rewrite <- app_assoc|..]; reflexivity.
    + rewrite Hreqs, list_lookup_middle by reflexivity.
      rewrite Hh. unfold with_req. simpl. rewrite Hreqs. rewrite insert_middle.
      apply Hnext; simpl; [rewrite <- app_assoc|..]; reflexivity.
    + rewrite (Htarget t eq_refl) in Hreqs.
      apply Hnext; [rewrite <- app_assoc; exact Hreqs | reflexivity..].
    + congruence.
Qed.

(** C1: in every state the gate reaches from its initial state, under any
    interleaving of arriving requests with the one call [Set(h0)]:
    a request that is past [Wait] implies that [Set] has returned, and until
    then no request can leave [Wait]; no request is dispatched to a nil
    handler, and every dispatched request went to [h0]; [Set] itself is never
    blocked; once [Set] has returned, every held request and a request
    arriving afterwards can run to its dispatch, which goes to [h0]; and from
    every such state the schedule [completion] runs [Set] to its end and then
    every request to its dispatch to [h0]. *)
Theorem gate_holds_until_set_then_dispatches sched s :
  run h0 sched init = Some s ->
  (forall i r, reqs s !! i = Some r -> r <> Waiting -> set_pc s = Finished)
  /\ (set_pc s <> Finished -> forall i, exec h0 (WaitReturn i) s = None)
  /\ (forall i r, reqs s !! i = Some r ->
        r <> NilDispatch /\ forall t, r = Dispatched t -> t = h0)
  /\ (set_pc s = Finished -> h (wh s) = Some h0)
  /\ (exists s', run h0 (finish_set (set_pc s)) s = Some s'
                 /\ set_pc s' = Finished /\ reqs s' = reqs s)
  /\ (set_pc s = Finished ->
        (forall i, reqs s !! i = Some Waiting ->
           exists s', run h0 [WaitReturn i; Dispatch i] s = Some s'
                      /\ reqs s' !! i = Some (Dispatched h0))
        /\ (forall i, reqs s !! i = Some Released ->
              exists s', run h0 [Dispatch i] s = Some s'
                         /\ reqs s' !! i = Some (Dispatched h0))
        /\ (exists s',
              run h0 [Arrive; WaitReturn (length (reqs s));
                      Dispatch (length (reqs s))] s = Some s'
              /\ reqs s' !! length (reqs s) = Some (Dispatched h0)))
  /\ (exists s', run h0 (completion s) s = Some s'
                 /\ set_pc s' = Finished
                 /\ reqs s' = map (fun _ => Dispatched h0) (reqs s)).
Proof.
  intros Hrun.
  pose proof (gate_inv_run sched init s gate_inv_init Hrun) as Hinv.
  pose proof Hinv as [Hf Hr].
  assert (Hset : exists s', run h0 (finish_set (set_pc s)) s = Some s'
                   /\ set_pc s' = Finished /\ reqs s' = reqs s).
  { destruct (set_pc s) eqn:Hpc; simpl; rewrite ?Hpc; simpl.
    + destruct Hf as [_ ->]. simpl. eexists. split; [reflexivity|]. auto.
    + destruct Hf as [_ ->]. simpl. eexists. split; [reflexivity|]. auto.
    + eexists. split; [reflexivity|]. auto. }
  split; [|split; [|split; [|split; [|split; [|split]]]]].
  - intros i r Hi Hne. pose proof (Forall_lookup_1 _ _ _ _ Hr Hi) as Hok.
    destruct r; simpl in Hok; [congruence | tauto | tauto | tauto].
  - intros Hpc i. simpl.
    destruct (reqs s !! i) as [[| | |]|]; try reflexivity.
    destruct (set_pc s); destruct Hf as [_ ->]; [reflexivity | reflexivity | congruence].
  - intros i r Hi. pose proof (Forall_lookup_1 _ _ _ _ Hr Hi) as Hok.
    destruct r; simpl in Hok; split; try discriminate; try tauto.
    intros t' Ht. inversion Ht; subst. tauto.
  - intros Hfin. rewrite Hfin in Hf. tauto.
  - exact Hset.
  - intros Hfin. split; [|split].
    + intros i Hi. apply waiting_dispatches; assumption.
    + intros i Hi. apply released_dispatches; assumption.
    + assert (Hinv1 : gate_inv {| wh := wh s; reqs := reqs s ++ [Waiting];
                                  set_pc := set_pc s |}).
      { apply (gate_inv_exec Arrive s); [exact Hinv | reflexivity]. }
      destruct (waiting_dispatches _ (length (reqs s)) Hinv1 Hfin) as (s' & Hs' & Hd).
      { simpl. apply list_lookup_middle. reflexivity. }
      exists s'. split; [|exact Hd]. exact Hs'.
  - destruct Hset as (s1 & Hrun1 & Hfin1 & Hreqs1).
    assert (Hinv1 : gate_inv s1).
    { apply (gate_inv_run (sched ++ finish_set (set_pc s)) init s1 gate_inv_init).
      rewrite run_app, Hrun. exact Hrun1. }
    destruct Hinv1 as [Hf1 Hr1]. rewrite Hfin1 in Hf1. destruct Hf1 as [Hh1 Hwg1].
    destruct (serve_all_spec (reqs s1) [] s1 eq_refl Hh1 Hwg1)
      as (s' & Hrun' & Hreqs' & _ & Hpc').
    { eapply Forall_impl; [exact Hr1|]. intros r Hok.
      destruct r; simpl in Hok; split; try discriminate; try tauto.
      intros t' Ht. inversion Ht; subst. tauto. }
    exists s'. unfold completion. rewrite run_app, Hrun1.
    rewrite <- Hreqs1. simpl in Hrun', Hreqs'.
    split; [exact Hrun'|]. split; [congruence | exact Hreqs'].
Qed.

End Facts.

(** C1 on [demo_schedule], which ends in [demo_system]: the first request
    went to the handler, the second is still held and can follow. *)
Lemma gate_holds_until_set_then_dispatches_witness :
  run "mux" demo_schedule init = Some demo_system
  /\ (forall i r, reqs demo_system !! i = Some r ->
        r <> NilDispatch /\ forall t, r = Dispatched t -> t = "mux")
  /\ exists s', run "mux" [WaitReturn 1; Dispatch 1] demo_system = Some s'
                /\ reqs s' !! 1 = Some (Dispatched "mux").
Proof.
  split; [reflexivity|].
  destruct (gate_holds_until_set_then_dispatches "mux" demo_schedule
              demo_system eq_refl) as (_ & _ & Hnil & _ & _ & Hlive & _).
  split; [exact Hnil|].
  destruct (Hlive eq_refl) as (Hwait & _ & _). apply Hwait. reflexivity.
Defined.

(** ** Further properties of the gate *)

Section Further.

Context {Handler : Type} (h0 : Handler).
Implicit Types (s : system Handler) (r : request Handler).

(** A request only moves forward: from [Wait] to its dispatch. *)
Definition no_regress r r' : Prop :=
  match r with
  | Waiting => True
  | Released => r' <> Waiting
  | Dispatched _ | NilDispatch => r' = r
  end.

Lemma no_regress_refl r : no_regress r r.
Proof. destruct r; simpl; auto; discriminate. Qed.

Lemma no_regress_trans r1 r2 r3 :
  no_regress r1 r2 -> no_regress r2 r3 -> no_regress r1 r3.
Proof.
  destruct r1; simpl; auto.
  - destruct r2; simpl; intros; subst; congruence.
  - intros ->. simpl. auto.
  - intros ->. simpl. auto.
Qed.

Lemma insert_no_regress (l : list (request Handler)) i r0 r1 j r :
  l !! i = Some r0 -> no_regress r0 r1 -> l !! j = Some r ->
  exists r', <[i := r1]> l !! j = Some r' /\ no_regress r r'.
Proof.
  intros Hi Hmove Hj. destruct (decide (i = j)) as [->|Hne].
  - exists r1. rewrite list_lookup_insert_eq by (eapply lookup_lt_Some; eauto).
    split; [reflexivity|]. congruence.
  - exists r. rewrite list_lookup_insert_ne by exact Hne.
    split; [exact Hj | apply no_regress_refl].
Qed.

Lemma exec_no_regress a s s' i r :
  exec h0 a s = Some s' -> reqs s !! i = Some r ->
  exists r', reqs s' !! i = Some r' /\ no_regress r r'.
Proof.
  intros Hex Hi. destruct a as [|j|j| |]; simpl in Hex.
  - inversion Hex; subst; simpl. exists r.
    split; [apply lookup_app_l_Some; exact Hi | apply no_regress_refl].
  - destruct (reqs s !! j) as [[| | |]|] eqn:Hj; try discriminate.
    destruct (wg (wh s) =? 0)%Z; [|discriminate].
    inversion Hex; subst; simpl.
    eapply insert_no_regress; eauto. simpl. exact I.
  - destruct (reqs s !! j) as [[| | |]|] eqn:Hj; try discriminate.
    inversion Hex; subst; simpl.
    eapply insert_no_regress; eauto. simpl. destruct (h (wh s)); discriminate.
  - destruct (set_pc s); try discriminate. inversion Hex; subst; simpl.
    exists r. split; [exact Hi | apply no_regress_refl].
  - destruct (set_pc s); try discriminate.
    destruct (0 <=? wg (wh s) - 1)%Z; [|discriminate].
    inversion Hex; subst; simpl.
    exists r. split; [exact Hi | apply no_regress_refl].
Qed.

Lemma exec_after_set a s s' :
  set_pc s = Finished -> exec h0 a s = Some s' ->
  wh s' = wh s /\ set_pc s' = Finished.
Proof.
  intros Hfin Hex. destruct a as [|j|j| |]; simpl in Hex.
  - inversion Hex; subst; auto.
  - destruct (reqs s !! j) as [[| | |]|]; try discriminate.
    destruct (wg (wh s) =? 0)%Z; [|discriminate]. inversion Hex; subst; auto.
  - destruct (reqs s !! j) as [[| | |]|]; try discriminate.
    inversion Hex; subst; auto.
  - rewrite Hfin in Hex. discriminate.
  - rewrite Hfin in Hex. discriminate.
Qed.

(** X7: requests only move forward, and an open gate stays open.  Along
    any schedule no request is dropped or sent back: a dispatched request
    stays dispatched to the same handler, a released one is never held
    again.  And once [Set] has returned, no later step changes the gate: the
    handler stays the one [Set] stored and the counter stays zero. *)
Theorem gate_only_moves_forward sched1 sched2 s s' :
  run h0 sched1 init = Some s ->
  run h0 sched2 s = Some s' ->
  (forall i r, reqs s !! i = Some r ->
     exists r', reqs s' !! i = Some r' /\ no_regress r r')
  /\ (forall i t, reqs s !! i = Some (Dispatched t) ->
        reqs s' !! i = Some (Dispatched t))
  /\ (set_pc s = Finished ->
        wh s' = wh s /\ set_pc s' = Finished
        /\ h (wh s') = Some h0 /\ wg (wh s') = 0%Z).
Proof.
  intros Hreach Hrun.
  assert (Hmono : forall sched s1 s2, run h0 sched s1 = Some s2 ->
            (forall i r, reqs s1 !! i = Some r ->
               exists r', reqs s2 !! i = Some r' /\ no_regress r r')
            /\ (set_pc s1 = Finished ->
                  wh s2 = wh s1 /\ set_pc s2 = Finished)).
  { clear. induction sched as [|a rest IH]; intros s1 s2 Hrun; simpl in Hrun.
    - inversion Hrun; subst. split; [|auto].
      intros i r Hi. exists r. split; [exact Hi | apply no_regress_refl].
    - destruct (exec h0 a s1) as [sm|] eqn:Hex; [|discriminate].
      destruct (IH sm s2 Hrun) as [Hreq Hopen]. split.
      + intros i r Hi.
        destruct (exec_no_regress a s1 sm i r Hex Hi) as (rm & Hm & Hrm).
        destruct (Hreq i rm Hm) as (r' & Hr' & Hmr).
        exists r'. split; [exact Hr' | eapply no_regress_trans; eauto].
      + intros Hfin. destruct (exec_after_set a s1 sm Hfin Hex) as [Hw Hp].
        destruct (Hopen Hp) as [Hw' Hp']. split; congruence. }
  destruct (Hmono sched2 s s' Hrun) as [Hreq Hopen].
  split; [exact Hreq|]. split.
  - intros i t Hi. destruct (Hreq i _ Hi) as (r' & Hr' & Hsame).
    simpl in Hsame. congruence.
  - intros Hfin. destruct (Hopen Hfin) as [Hw Hp].
    pose proof (gate_inv_run h0 sched1 init s (gate_inv_init h0) Hreach)
      as [Hf _].
    rewrite Hfin in Hf. destruct Hf as [Hh Hwg].
    repeat split; congruence.
Qed.

(** X8: [Set] is one-shot.  [Set] always stores the handler and lowers the
    counter by one; it returns normally on a gate whose counter is positive,
    as [rpcInit] prepares it with [Add(1)], and [Done] panics on a gate whose
    counter is zero or below (a gate already set, or one never prepared),
    after the handler has been overwritten and with the negative counter left
    behind.  So after [Add(1)] a request is held, the first [Set] opens the
    gate for its handler, and a second [Set] panics, leaves its own handler
    in place and the counter at -1, on which a request is held again; the
    two steps [Set] takes in the transition system leave the same gate as
    the call. *)
Theorem Set_is_one_shot (h1 h2 : Handler) (w : waitHandler Handler) :
  ((1 <= wg w)%Z ->
     call_Set h1 w = ({| h := Some h1; wg := wg w - 1 |}, false))
  /\ ((wg w <= 0)%Z ->
        call_Set h1 w = ({| h := Some h1; wg := wg w - 1 |}, true))
  /\ call_ServeHTTP (wh init) = @Waiting Handler
  /\ call_ServeHTTP (call_Set h1 (wh init)).1 = Dispatched h1
  /\ call_Set h2 (call_Set h1 (wh init)).1
       = ({| h := Some h2; wg := -1 |}, true)
  /\ call_ServeHTTP (call_Set h2 (call_Set h1 (wh init)).1).1
       = @Waiting Handler
  /\ (forall s, set_pc s = NotCalled -> (1 <= wg (wh s))%Z ->
        exists s', run h1 [SetStore; SetDone] s = Some s'
                   /\ wh s' = (call_Set h1 (wh s)).1).
Proof.
  split; [|split; [|split; [|split; [|split; [|split]]]]].
  - intros Hpos. unfold call_Set, wg_Add. simpl.
    replace (wg w + -1)%Z with (wg w - 1)%Z by lia.
    destruct (wg w - 1 <? 0)%Z eqn:Hlt; [|reflexivity].
    apply Z.ltb_lt in Hlt. lia.
  - intros Hneg. unfold call_Set, wg_Add. simpl.
    replace (wg w + -1)%Z with (wg w - 1)%Z by lia.
    destruct (wg w - 1 <? 0)%Z eqn:Hlt; [reflexivity|].
    apply Z.ltb_ge in Hlt. lia.
  - reflexivity.
  - reflexivity.
  - reflexivity.
  - reflexivity.
  - intros s Hpc Hpos. simpl. rewrite Hpc. simpl.
    unfold call_Set, wg_Add. simpl.
    replace (wg (wh s) + -1)%Z with (wg (wh s) - 1)%Z by lia.
    destruct (0 <=? wg (wh s) - 1)%Z eqn:Hle.
    + eexists. split; reflexivity.
    + apply Z.leb_gt in Hle. lia.
Qed.

End Further.

(** X7 on [demo_schedule]: the request dispatched there stays dispatched
    while the second request is served. *)
Lemma gate_only_moves_forward_witness :
  run "mux" [WaitReturn 1; Dispatch 1] demo_system = Some demo_served
  /\ reqs demo_served !! 0 = Some (Dispatched "mux")
  /\ wh demo_served = wh demo_system.
Proof.
  split; [reflexivity|].
  destruct (gate_only_moves_forward "mux" demo_schedule
              [WaitReturn 1; Dispatch 1] demo_system demo_served
              eq_refl eq_refl)
    as (_ & Hkept & Hopen).
  split; [apply Hkept; reflexivity | apply (Hopen eq_refl)].
Defined.

End GateProps.

(* ===================================================================== *)
(** * Properties of the pin store *)
(* ===================================================================== *)

Module PinsProps.
Import Pins.

(** C6: creating a pin twice under one name, with any two heights: both
    calls succeed, the second changes nothing, and the pin stays at the height
    the first call left it at, which is the height it was given when the name
    was new (and the height the pin already had otherwise). *)
Theorem CreatePin_idempotent (error : Type) (ps : gmap string Z)
    (name : string) (h1 h2 : Z) :
  exists ps1 : gmap string Z,
    CreatePin (error := error) ps name h1 = Ok ps1
    /\ CreatePin (error := error) ps1 name h2 = Ok ps1
    /\ ps1 !! name = Some (default h1 (ps !! name))
    /\ (ps !! name = None -> ps1 !! name = Some h1)
    /\ (forall other, other <> name -> ps1 !! other = ps !! other).
Proof.
  unfold CreatePin. destruct (ps !! name) as [h|] eqn:Hps.
  - exists ps. rewrite Hps. simpl. repeat split; auto. discriminate.
  - exists (<[name := h1]> ps). rewrite lookup_insert_eq. simpl.
    repeat split; auto. intros other Hne. rewrite lookup_insert_ne; auto.
Qed.

(** The pin store of [Pins] meets the contract. *)
Lemma CreatePin_meets_contract (error : Type) :
  CreatePin_contract (fun (ps : gmap string Z) name => ps !! name)
    (CreatePin (error := error)).
Proof.
  intros ps name initialHeight ps'. unfold CreatePin.
  destruct (ps !! name) as [h|] eqn:Hps; intros Hok; inversion Hok; subst.
  - rewrite Hps. auto.
  - rewrite lookup_insert_eq. split; [reflexivity|].
    intros other Hne. rewrite lookup_insert_ne; auto.
Qed.

(** Two calls with one height under the contract, for the names [n1] and
    then [n2]: each of the two pins is at the height it had, or at [height]
    when it is new, and no other pin is touched. *)
Lemma CreatePin_contract_twice {error PinStore : Type}
    (height_of : PinStore -> string -> option Z)
    (create : PinStore -> string -> Z -> result error PinStore)
    (p0 p1 p2 : PinStore) (n1 n2 : string) (height : Z) :
  CreatePin_contract height_of create ->
  create p0 n1 height = Ok p1 ->
  create p1 n2 height = Ok p2 ->
  (forall name, name = n1 \/ name = n2 ->
     height_of p2 name = Some (default height (height_of p0 name)))
  /\ (forall other, other <> n1 -> other <> n2 ->
        height_of p2 other = height_of p0 other).
Proof.
  intros Hc H1 H2.
  destruct (Hc _ _ _ _ H1) as [Hn1 Ho1].
  destruct (Hc _ _ _ _ H2) as [Hn2 Ho2].
  split.
  - intros name [-> | ->].
    + destruct (decide (n1 = n2)) as [<- | Hne].
      * rewrite Hn2, Hn1. reflexivity.
      * rewrite Ho2 by exact Hne. exact Hn1.
    + rewrite Hn2. destruct (decide (n2 = n1)) as [-> | Hne].
      * rewrite Hn1. reflexivity.
      * rewrite (Ho1 _ Hne). reflexivity.
  - intros other Hne1 Hne2. rewrite (Ho2 _ Hne2). apply Ho1, Hne1.
Qed.

End PinsProps.

(* ===================================================================== *)
(** * Properties of node construction and start *)
(* ===================================================================== *)

Module NodeProps.
Import NodeLife.

Section Facts.

Context {error Store PinStore Block : Type}.
Implicit Types (E : Env error Store PinStore Block).
Implicit Types (w : world Store PinStore) (n : Node) (cfg : Config).

(** Case analysis along the paths of a computation. *)
Ltac plain x :=
  lazymatch x with
  | context [match _ with _ => _ end] => fail
  | _ => idtac
  end.

Ltac paths :=
  repeat (simpl;
          match goal with
          | |- context [match ?x with _ => _ end] => plain x; destruct x eqn:?
          end);
  simpl.

Ltac run_node :=
  unfold NewNode, finish, rpcInit, start_event_switch, genesis_bootstrap,
    create_pins, Listen, ListenAndServe, LoadAll, CreatePin, AddBlock, Height,
    bind, ret, emit, exit.

Example Split1_two : Split1 ","%char ":8001,:8002" = [":8001"; ":8002"].
Proof. reflexivity. Qed.

Example Split1_empty : Split1 ","%char "" = [""].
Proof. reflexivity. Qed.

Example Split1_trailing : Split1 ","%char "a,,b," = ["a"; ""; "b"; ""].
Proof. reflexivity. Qed.

Example ProtocolAndAddress_unix :
  ProtocolAndAddress "unix:///tmp/rpc.sock" = ("unix", "/tmp/rpc.sock").
Proof. reflexivity. Qed.

Example ProtocolAndAddress_default :
  ProtocolAndAddress "0.0.0.0:46656" = ("tcp", "0.0.0.0:46656").
Proof. reflexivity. Qed.

Example initial_pin_height_50 : initial_pin_height 50 = 49%Z.
Proof. reflexivity. Qed.

Example initial_pin_height_1 : initial_pin_height 1 = 0%Z.
Proof. reflexivity. Qed.

Example initial_pin_height_0 : initial_pin_height 0 = 0%Z.
Proof. reflexivity. Qed.

(** ** The two string helpers *)

(** [strings.Join(pieces, sep)] for a one-character separator. *)
Fixpoint Join1 (sep : ascii) (pieces : list string) : string :=
  match pieces with
  | [] => ""
  | [piece] => piece
  | piece :: more => piece +:+ String sep (Join1 sep more)
  end.

(** The string has no occurrence of the character. *)
Fixpoint free_of (c : ascii) (s : string) : bool :=
  match s with
  | EmptyString => true
  | String x rest => negb (Ascii.eqb x c) && free_of c rest
  end.

Lemma Split1_not_nil sep s : Split1 sep s <> [].
Proof.
  destruct s as [|c rest]; simpl; [discriminate|].
  destruct (Split1 sep rest); [discriminate|].
  destruct (Ascii.eqb c sep); discriminate.
Qed.

(** X9: [strings.Split] on a one-character separator, as lines 320 and 385
    use it on the seed list and on the RPC addresses: there is always at
    least one piece, one more than there are separators; no piece contains
    the separator; and the pieces joined by the separator give the string
    back.  So the empty string yields the single piece [""], not no piece. *)
Theorem Split1_pieces sep s :
  Split1 sep s <> []
  /\ Forall (fun piece => free_of sep piece = true) (Split1 sep s)
  /\ Join1 sep (Split1 sep s) = s
  /\ (free_of sep s = true -> Split1 sep s = [s])
  /\ (forall pieces, pieces <> [] ->
        Forall (fun piece => free_of sep piece = true) pieces ->
        Split1 sep (Join1 sep pieces) = pieces).
Proof.
  split; [apply Split1_not_nil|].
  split; [|split; [|split]].
  - induction s as [|c rest IH]; simpl; [repeat constructor|].
    destruct (Split1 sep rest) as [|piece more] eqn:Hs;
      [repeat constructor; simpl|].
    + destruct (Split1_not_nil sep rest Hs).
    + inversion IH; subst.
      destruct (Ascii.eqb c sep) eqn:Hc; constructor; simpl; auto.
      rewrite Hc. simpl. assumption.
  - induction s as [|c rest IH]; simpl; [reflexivity|].
    destruct (Split1 sep rest) as [|piece more] eqn:Hs.
    + destruct (Split1_not_nil sep rest Hs).
    + destruct (Ascii.eqb c sep) eqn:Hc.
      * apply Ascii.eqb_eq in Hc. subst c.
        change (Join1 sep ("" :: piece :: more))
          with (String sep (Join1 sep (piece :: more))).
        rewrite IH. reflexivity.
      * assert (Hcons : Join1 sep (String c piece :: more)
                        = String c (Join1 sep (piece :: more)))
          by (destruct more; reflexivity).
        rewrite Hcons, IH. reflexivity.
  - induction s as [|c rest IH]; simpl; [reflexivity|].
    intros Hfree. apply andb_true_iff in Hfree as [Hc Hrest].
    rewrite (IH Hrest). apply negb_true_iff in Hc. rewrite Hc. reflexivity.
  - assert (Hone : forall piece rest,
              free_of sep piece = true ->
              Split1 sep (piece +:+ String sep rest)
                = piece :: Split1 sep rest).
    { induction piece as [|c piece' IHp]; intros rest Hfree; simpl.
      - rewrite Ascii.eqb_refl.
        destruct (Split1 sep rest) eqn:Hs; [|reflexivity].
        destruct (Split1_not_nil sep rest Hs).
      - simpl in Hfree. apply andb_true_iff in Hfree as [Hc Hrest].
        rewrite (IHp rest Hrest). apply negb_true_iff in Hc. rewrite Hc.
        reflexivity. }
    assert (Hsingle : forall piece, free_of sep piece = true ->
              Split1 sep piece = [piece]).
    { induction piece as [|c piece' IHp]; simpl; [reflexivity|].
      intros Hfree. apply andb_true_iff in Hfree as [Hc Hrest].
      rewrite (IHp Hrest). apply negb_true_iff in Hc. rewrite Hc.
      reflexivity. }
    induction pieces as [|piece more IH]; intros Hne Hfree; [congruence|].
    inversion Hfree; subst.
    destruct more as [|p2 more'].
    + simpl. apply Hsingle. assumption.
    + change (Join1 sep (piece :: p2 :: more'))
        with (piece +:+ String sep (Join1 sep (p2 :: more'))).
      rewrite Hone by assumption. f_equal. apply IH; [discriminate|assumption].
Qed.

Lemma substring_all s : String.substring 0 (String.length s) s = s.
Proof. induction s as [|c rest IH]; simpl; [reflexivity|]. rewrite IH. reflexivity. Qed.

(** A prefix can be cut off and put back. *)
Lemma prefix_cut sep : forall s,
  String.prefix sep s = true ->
  s = sep +:+ String.substring (String.length sep)
                (String.length s - String.length sep) s.
Proof.
  induction sep as [|a sep' IH]; intros s Hp; simpl.
  - rewrite Nat.sub_0_r. symmetry. apply substring_all.
  - destruct s as [|b s']; simpl in Hp; [discriminate|].
    destruct (ascii_dec a b) as [->|]; [|discriminate].
    simpl. rewrite (IH s' Hp) at 1. reflexivity.
Qed.

Lemma prefix_head_ne a s1 b s2 :
  a <> b -> String.prefix (String a s1) (String b s2) = false.
Proof.
  intros Hne.
  change (String.prefix (String a s1) (String b s2))
    with (if ascii_dec a b then String.prefix s1 s2 else false).
  destruct (ascii_dec a b); [contradiction | reflexivity].
Qed.

Lemma prefix_head_eq a s1 s2 :
  String.prefix (String a s1) (String a s2) = String.prefix s1 s2.
Proof.
  change (String.prefix (String a s1) (String a s2))
    with (if ascii_dec a a then String.prefix s1 s2 else false).
  destruct (ascii_dec a a); [reflexivity | contradiction].
Qed.

Lemma prefix_nil s : String.prefix "" s = true.
Proof. destruct s; reflexivity. Qed.

Lemma SplitN2_found sep s :
  String.prefix sep s = true ->
  SplitN2 sep s
    = [""; String.substring (String.length sep)
             (String.length s - String.length sep) s].
Proof. intros Hp. destruct s; unfold SplitN2; rewrite Hp; reflexivity. Qed.

Lemma SplitN2_cases sep s :
  SplitN2 sep s = [s]
  \/ exists x y, SplitN2 sep s = [x; y] /\ s = x +:+ sep +:+ y.
Proof.
  induction s as [|c rest IH].
  - change (SplitN2 sep "")
      with (if String.prefix sep ""
            then [""; String.substring (String.length sep)
                        (String.length "" - String.length sep) ""]
            else [""]).
    destruct (String.prefix sep "") eqn:Hp; [|left; reflexivity].
    right. eexists _, _. split; [reflexivity|].
    apply (prefix_cut sep "" Hp).
  - unfold SplitN2; fold SplitN2.
    destruct (String.prefix sep (String c rest)) eqn:Hp.
    + right. eexists _, _. split; [reflexivity|]. simpl.
      apply (prefix_cut sep _ Hp).
    + destruct IH as [-> | (x & y & -> & Hrest)]; [left; reflexivity|].
      right. exists (String c x), y. split; [reflexivity|].
      simpl. rewrite Hrest. reflexivity.
Qed.

(** X10: [ProtocolAndAddress] cuts the listen address at the first [://]:
    the result either puts back together to the address around [://], or is
    [tcp] with the whole address.  A protocol name without a colon is
    recovered with its address, whatever the address contains; an address
    without a colon gets [tcp]. *)
Theorem ProtocolAndAddress_cut (listenAddr : string) :
  (listenAddr
     = (ProtocolAndAddress listenAddr).1 +:+ "://"
         +:+ (ProtocolAndAddress listenAddr).2
   \/ ProtocolAndAddress listenAddr = ("tcp", listenAddr))
  /\ (forall protocol address,
        free_of ":" protocol = true ->
        ProtocolAndAddress (protocol +:+ "://" +:+ address)
          = (protocol, address))
  /\ (free_of ":" listenAddr = true ->
        ProtocolAndAddress listenAddr = ("tcp", listenAddr)).
Proof.
  assert (Hround : forall protocol address,
            free_of ":" protocol = true ->
            SplitN2 "://" (protocol +:+ "://" +:+ address)
              = [protocol; address]).
  { induction protocol as [|c p' IH]; intros address Hfree.
    - change ("" +:+ "://" +:+ address)
        with (String ":" (String "/" (String "/" address))).
      rewrite SplitN2_found
        by (rewrite !prefix_head_eq; apply prefix_nil).
      change (String.substring (String.length "://")
                (String.length (String ":" (String "/" (String "/" address)))
                 - String.length "://")
                (String ":" (String "/" (String "/" address))))
        with (String.substring 0 (String.length address - 0) address).
      rewrite Nat.sub_0_r, substring_all. reflexivity.
    - simpl in Hfree. apply andb_true_iff in Hfree as [Hc Hrest].
      apply negb_true_iff, Ascii.eqb_neq in Hc.
      change (String c p' +:+ "://" +:+ address)
        with (String c (p' +:+ "://" +:+ address)).
      unfold SplitN2; fold SplitN2.
      assert (Hp : String.prefix "://" (String c (p' +:+ "://" +:+ address))
                   = false).
      { apply prefix_head_ne. congruence. }
      rewrite Hp, (IH address Hrest). reflexivity. }
  assert (Hnone : forall s, free_of ":" s = true -> SplitN2 "://" s = [s]).
  { induction s as [|c rest IH]; intros Hfree; [reflexivity|].
    simpl in Hfree. apply andb_true_iff in Hfree as [Hc Hrest].
    apply negb_true_iff, Ascii.eqb_neq in Hc.
    unfold SplitN2; fold SplitN2.
    assert (Hp : String.prefix "://" (String c rest) = false).
    { apply prefix_head_ne. congruence. }
    rewrite Hp, (IH Hrest). reflexivity. }
  split; [|split].
  - unfold ProtocolAndAddress.
    destruct (SplitN2_cases "://" listenAddr) as [-> | (x & y & -> & Heq)];
      [right; reflexivity | left; exact Heq].
  - intros protocol address Hfree. unfold ProtocolAndAddress.
    rewrite Hround by exact Hfree. reflexivity.
  - intros Hfree. unfold ProtocolAndAddress. rewrite Hnone by exact Hfree.
    reflexivity.
Qed.

(** The block store after the constructor: only the genesis bootstrap
    writes it. *)
Lemma NewNode_store E cfg w :
  store (NewNode E cfg w).1.2
    = (if (store_Height E (store w) <? 1)%Z
       then match eventSwitch_Start E,
                  chain_AddBlock E (store w) (genesisBlock E) with
            | None, Ok s' => s'
            | _, _ => store w
            end
       else store w).
Proof. run_node. paths; congruence. Qed.

(** The blocks the constructor hands to the chain. *)
Lemma NewNode_added_blocks E cfg w :
  added_blocks (NewNode E cfg w).2
    = match eventSwitch_Start E with
      | None => if (store_Height E (store w) <? 1)%Z
                then [genesisBlock E] else []
      | Some _ => []
      end.
Proof. run_node. paths; congruence. Qed.

(** C4: the constructor hands the genesis block to the chain exactly when
    the height of the store is below 1.  Then, when the chain accepts it, the
    store is the one the chain returns, and when it refuses, the process
    exits.  On a store of height at least 1 no block is added and the store is
    left as it is; so a further construction on the store a construction
    leaves behind, if that has height at least 1, adds nothing and keeps the
    height. *)
Theorem genesis_appended_iff_height_below_one E cfg w :
  eventSwitch_Start E = None ->
  (added_blocks (NewNode E cfg w).2 = [genesisBlock E]
     <-> (store_Height E (store w) < 1)%Z)
  /\ ((1 <= store_Height E (store w))%Z ->
        added_blocks (NewNode E cfg w).2 = []
        /\ store (NewNode E cfg w).1.2 = store w)
  /\ (forall s', (store_Height E (store w) < 1)%Z ->
        chain_AddBlock E (store w) (genesisBlock E) = Ok s' ->
        store (NewNode E cfg w).1.2 = s')
  /\ (forall err, (store_Height E (store w) < 1)%Z ->
        chain_AddBlock E (store w) (genesisBlock E) = Err err ->
        (NewNode E cfg w).1.1
          = Exited (CmnExit "Failed to add genesisBlock to Chain: %v")
                   (Some err))
  /\ (forall cfg',
        (1 <= store_Height E (store (NewNode E cfg w).1.2))%Z ->
        added_blocks (NewNode E cfg' (NewNode E cfg w).1.2).2 = []
        /\ store (NewNode E cfg' (NewNode E cfg w).1.2).1.2
             = store (NewNode E cfg w).1.2
        /\ store_Height E (store (NewNode E cfg' (NewNode E cfg w).1.2).1.2)
             = store_Height E (store (NewNode E cfg w).1.2)).
Proof.
  intros Hsw.
  assert (Hhigh : forall cfg0 w0, (1 <= store_Height E (store w0))%Z ->
            added_blocks (NewNode E cfg0 w0).2 = []
            /\ store (NewNode E cfg0 w0).1.2 = store w0).
  { intros cfg0 w0 Hh. rewrite NewNode_added_blocks, NewNode_store.
    destruct (store_Height E (store w0) <? 1)%Z eqn:Hlt;
      [apply Z.ltb_lt in Hlt; lia|].
    destruct (eventSwitch_Start E); auto. }
  split; [|split; [|split; [|split]]].
  - rewrite NewNode_added_blocks, Hsw.
    destruct (store_Height E (store w) <? 1)%Z eqn:Hlt.
    + apply Z.ltb_lt in Hlt. tauto.
    + apply Z.ltb_ge in Hlt. split; [discriminate | lia].
  - apply Hhigh.
  - intros s' Hlt Hadd. rewrite NewNode_store, Hsw, Hadd.
    apply Z.ltb_lt in Hlt. rewrite Hlt. reflexivity.
  - intros err Hlt Hadd. apply Z.ltb_lt in Hlt.
    run_node. rewrite Hsw. simpl. rewrite Hlt. simpl. rewrite Hadd. reflexivity.
  - intros cfg' Hh. destruct (Hhigh cfg' _ Hh) as [Hnone Hst].
    rewrite Hnone, Hst. auto.
Qed.

(** The height the pins are created at: one below a positive height. *)
Lemma initial_pin_height_max height :
  (0 <= height < 2 ^ 64)%Z ->
  initial_pin_height height = Z.max (height - 1) 0.
Proof.
  intros Hr. unfold initial_pin_height, wrap64.
  destruct (0 <? height)%Z eqn:Hpos.
  - apply Z.ltb_lt in Hpos. rewrite Z.mod_small by lia. lia.
  - apply Z.ltb_ge in Hpos. lia.
Qed.

(** The pin store the constructor leaves with wallet features enabled: the
    loaded store after the two [CreatePin] calls, both made with the height
    computed from the store the constructor leaves. *)
Lemma NewNode_pins_threaded E cfg w n :
  Wallet_Enable cfg = true ->
  (NewNode E cfg w).1.1 = Return (Some n) ->
  exists loaded first,
    pinStore_LoadAll E (pins w) = Ok loaded
    /\ pinStore_CreatePin E loaded (account_PinName E)
         (initial_pin_height (store_Height E (store (NewNode E cfg w).1.2)))
       = Ok first
    /\ pinStore_CreatePin E first (account_DeleteSpentsPinName E)
         (initial_pin_height (store_Height E (store (NewNode E cfg w).1.2)))
       = Ok (pins (NewNode E cfg w).1.2).
Proof.
  intros Hwal. run_node. rewrite Hwal.
  paths; intros; try discriminate; eexists _, _; repeat split; eassumption.
Qed.

(** C5: when wallet features are enabled and the constructor returns a
    node, it has called [CreatePin] exactly twice, for [account.PinName] and
    then for [account.DeleteSpentsPinName], both times with the height
    [store.Height() - 1] when [store.Height()] is above 0 and with 0
    otherwise, that is, with [max(store.Height() - 1, 0)]; and the pin store
    it leaves is the loaded one after these two calls.  So, for a pin store
    whose [CreatePin] keeps the contract of the specification, each of the
    two pins that was not there after [LoadAll] is in the store at that
    height when the constructor returns, one that was there has kept its
    height, and no other pin has been created or changed. *)
Theorem two_pins_created_below_tip E cfg w n :
  Wallet_Enable cfg = true ->
  (NewNode E cfg w).1.1 = Return (Some n) ->
  (0 <= store_Height E (store (NewNode E cfg w).1.2) < 2 ^ 64)%Z ->
  created_pins (NewNode E cfg w).2
    = [(account_PinName E,
        initial_pin_height (store_Height E (store (NewNode E cfg w).1.2)));
       (account_DeleteSpentsPinName E,
        initial_pin_height (store_Height E (store (NewNode E cfg w).1.2)))]
  /\ initial_pin_height (store_Height E (store (NewNode E cfg w).1.2))
       = Z.max (store_Height E (store (NewNode E cfg w).1.2) - 1) 0
  /\ ((0 < store_Height E (store (NewNode E cfg w).1.2))%Z ->
        initial_pin_height (store_Height E (store (NewNode E cfg w).1.2))
          = (store_Height E (store (NewNode E cfg w).1.2) - 1)%Z)
  /\ (store_Height E (store (NewNode E cfg w).1.2) = 0%Z ->
        initial_pin_height (store_Height E (store (NewNode E cfg w).1.2))
          = 0%Z)
  /\ store (NewNode E cfg w).1.2 = store (genesis_bootstrap E w).1.2
  /\ has_wallet n = true
  /\ exists loaded first,
       pinStore_LoadAll E (pins w) = Ok loaded
       /\ pinStore_CreatePin E loaded (account_PinName E)
            (Z.max (store_Height E (store (NewNode E cfg w).1.2) - 1) 0)
          = Ok first
       /\ pinStore_CreatePin E first (account_DeleteSpentsPinName E)
            (Z.max (store_Height E (store (NewNode E cfg w).1.2) - 1) 0)
          = Ok (pins (NewNode E cfg w).1.2)
       /\ forall height_of : PinStore -> string -> option Z,
            Pins.CreatePin_contract height_of (pinStore_CreatePin E) ->
            (forall name,
               name = account_PinName E
               \/ name = account_DeleteSpentsPinName E ->
               height_of (pins (NewNode E cfg w).1.2) name
                 = Some (default
                           (Z.max (store_Height E
                                     (store (NewNode E cfg w).1.2) - 1) 0)
                           (height_of loaded name)))
            /\ (forall name,
                  name = account_PinName E
                  \/ name = account_DeleteSpentsPinName E ->
                  height_of loaded name = None ->
                  height_of (pins (NewNode E cfg w).1.2) name
                    = Some (Z.max (store_Height E
                                     (store (NewNode E cfg w).1.2) - 1) 0))
            /\ (forall other,
                  other <> account_PinName E ->
                  other <> account_DeleteSpentsPinName E ->
                  height_of (pins (NewNode E cfg w).1.2) other
                    = height_of loaded other).
Proof.
  intros Hwal Hret Hrange.
  pose proof (initial_pin_height_max _ Hrange) as Hmax.
  split; [|split; [exact Hmax|split; [|split; [|split; [|split]]]]].
  - clear Hmax Hrange. revert Hret. run_node. rewrite Hwal.
    paths; intros; try discriminate; reflexivity.
  - intros Hpos. rewrite Hmax. lia.
  - intros Hz. rewrite Hmax. lia.
  - clear Hmax Hrange. revert Hret. run_node. rewrite Hwal.
    paths; intros; try discriminate; reflexivity.
  - clear Hmax Hrange. revert Hret. run_node. rewrite Hwal.
    paths; intros Hret; inversion Hret; reflexivity.
  - destruct (NewNode_pins_threaded E cfg w n Hwal Hret)
      as (loaded & first & Hload & Hfirst & Hsecond).
    rewrite Hmax in Hfirst, Hsecond.
    exists loaded, first. split; [exact Hload|].
    split; [exact Hfirst|]. split; [exact Hsecond|].
    intros height_of Hcontract.
    destruct (PinsProps.CreatePin_contract_twice height_of
                (pinStore_CreatePin E) loaded first _ _ _ _
                Hcontract Hfirst Hsecond) as [Hboth Hothers].
    split; [exact Hboth|]. split; [|exact Hothers].
    intros name Hname Hnew. rewrite (Hboth name Hname), Hnew. reflexivity.
Qed.

(** C7, as the code has it: when wallet features are enabled and
    [LoadAll] fails, the constructor logs the error and returns nil.  It does
    not end the process.  No pin is created, no goroutine is started (so
    wallet indexing is not), no socket is bound, and the stores are as the
    genesis bootstrap left them. *)
Theorem LoadAll_failure_returns_nil E cfg w err :
  Wallet_Enable cfg = true ->
  eventSwitch_Start E = None ->
  (genesis_bootstrap E w).1.1 = Return tt ->
  pinStore_LoadAll E (pins w) = Err err ->
  (NewNode E cfg w).1.1 = Return None
  /\ (NewNode E cfg w).2
       = [EvEventSwitchStart] ++ (genesis_bootstrap E w).2
           ++ [EvLoadAll; EvLogError err]
  /\ created_pins (NewNode E cfg w).2 = []
  /\ spawned (NewNode E cfg w).2 = []
  /\ bound (NewNode E cfg w).2 = []
  /\ pins (NewNode E cfg w).1.2 = pins w
  /\ listening (NewNode E cfg w).1.2 = listening w.
Proof.
  intros Hwal Hsw Hgen Hload. revert Hgen. run_node. rewrite Hwal, Hsw.
  paths; intros; try discriminate; simpl in *;
    try (rewrite Hload in *; simplify_eq); repeat split; congruence.
Qed.




(** The RPC loop up to the first address that cannot be bound. *)
Lemma bind_loop_fails E pre : forall i ls w bad post err,
  (forall k a, pre !! k = Some a ->
     rpcserver_StartHTTPServer E
       (listening w ++ map HTTPListener (take k pre)) a = None) ->
  rpcserver_StartHTTPServer E (listening w ++ map HTTPListener pre) bad
    = Some err ->
  bind_loop E i (pre ++ bad :: post) ls w
    = (Return ([], Some err),
       set_listening w (listening w ++ map HTTPListener pre),
       map (fun a => EvBind (HTTPListener a)) (pre ++ [bad])).
Proof.
  induction pre as [|a rest IH]; intros i ls w bad post err Hpre Hbad.
  - simpl in *. rewrite app_nil_r in Hbad. unfold bind, StartHTTPServer, ret.
    rewrite Hbad. destruct w. unfold set_listening. simpl.
    rewrite app_nil_r. reflexivity.
  - pose proof (Hpre 0 a eq_refl) as Ha. simpl in Ha. rewrite app_nil_r in Ha.
    simpl. unfold bind at 1. unfold StartHTTPServer at 1. rewrite Ha.
    rewrite (IH (S i) _ (set_listening w (listening w ++ [HTTPListener a]))
               bad post err).
    + destruct w. unfold set_listening. simpl.
      rewrite <- app_assoc. reflexivity.
    + intros k a' Hk. simpl. rewrite <- app_assoc. apply (Hpre (S k) a' Hk).
    + simpl. rewrite <- app_assoc. exact Hbad.
Qed.

(** C2, as the code has it: when the addresses before [bad] are bound and
    binding [bad] fails, [startRPC] returns that error with a nil slice at
    once.  The addresses after [bad] and the gRPC address are not tried.
    Nothing is closed: the listeners bound before the failure are still open
    when the error reaches the caller. *)
Theorem startRPC_bind_failure_closes_nothing E n w pre bad post err :
  Split1 ","%char (RPC_ListenAddress (RPC (config n))) = pre ++ bad :: post ->
  (forall k a, pre !! k = Some a ->
     rpcserver_StartHTTPServer E
       (listening w ++ map HTTPListener (take k pre)) a = None) ->
  rpcserver_StartHTTPServer E (listening w ++ map HTTPListener pre) bad
    = Some err ->
  (startRPC E n w).1.1 = Return ([], Some err)
  /\ listening (startRPC E n w).1.2 = listening w ++ map HTTPListener pre
  /\ bound (startRPC E n w).2 = map HTTPListener (pre ++ [bad])
  /\ closed (startRPC E n w).2 = []
  /\ (forall a, a ∈ pre -> HTTPListener a ∈ listening (startRPC E n w).1.2).
Proof.
  intros Hsplit Hpre Hbad.
  assert (Hrun : (startRPC E n w).1 = (Return ([], Some err),
                   set_listening w (listening w ++ map HTTPListener pre))
                 /\ exists evs0, (startRPC E n w).2
                      = evs0 ++ map (fun a => EvBind (HTTPListener a))
                                    (pre ++ [bad])
                      /\ bound evs0 = [] /\ closed evs0 = []).
  { unfold startRPC. rewrite Hsplit.
    unfold bind at 1. unfold emit at 1.
    unfold bind at 1.
    destruct (RPC_Unsafe (RPC (config n))); unfold emit, ret; simpl;
      unfold bind; rewrite (bind_loop_fails E pre _ _ _ bad post err Hpre Hbad);
      simpl; rewrite app_nil_r; (split; [reflexivity|]);
      [exists [EvConfigureRPC; EvAddUnsafeRoutes] | exists [EvConfigureRPC]];
      repeat split. }
  destruct Hrun as [Hres (evs0 & Hevs & Hb0 & Hc0)].
  assert (Hlisten : listening (startRPC E n w).1.2
                    = listening w ++ map HTTPListener pre).
  { rewrite Hres. reflexivity. }
  split; [rewrite Hres; reflexivity|]. split; [exact Hlisten|].
  split; [|split].
  - rewrite Hevs. unfold bound in *. rewrite omap_app, Hb0. simpl.
    clear. induction (pre ++ [bad]) as [|a l IH]; simpl; [reflexivity|].
    f_equal. exact IH.
  - rewrite Hevs. unfold closed in *. rewrite omap_app, Hc0. simpl.
    clear. induction (pre ++ [bad]) as [|a l IH]; simpl; [reflexivity|].
    exact IH.
  - intros a Ha. rewrite Hlisten. apply elem_of_app. right.
    apply list_elem_of_fmap. eauto.
Qed.

(** [OnStop] closes the listeners it is given, in order. *)
Lemma close_all_closed E ls : forall w,
  (close_all E (map Some ls) w).1.1 = Return tt
  /\ closed (close_all E (map Some ls) w).2 = ls.
Proof.
  induction ls as [|l rest IH]; intros w; simpl; [split; reflexivity|].
  unfold bind, Close.
  destruct (IH (set_listening w (filter (fun l' => l' <> l) (listening w))))
    as [Hret Hclosed].
  destruct (close_all E (map Some rest) _) as [[r w'] evs].
  simpl in *. subst r. split; [reflexivity|].
  unfold closed in *. simpl. rewrite omap_app, Hclosed.
  destruct (listener_Close E l); reflexivity.
Qed.

(** C3, as the code has it: when the switch has started, seeds are
    configured and dialing them fails, [OnStart] returns the dial error.  It
    does not go on to [startRPC]: after the peer socket nothing is bound, and
    [rpcListeners] is what it was. *)
Theorem seed_dial_failure_aborts_start E n w err :
  sw_Start E = None ->
  P2P_Seeds (P2P (config n)) <> "" ->
  sw_DialSeeds E (Split1 ","%char (P2P_Seeds (P2P (config n)))) = Some err ->
  exists n',
    (OnStart E n w).1.1 = Return (n', Some err)
    /\ rpcListeners n' = rpcListeners n
    /\ (OnStart E n w).2
         = [EvBind (PeerListener
              (ProtocolAndAddress (P2P_ListenAddress (P2P (config n)))).1
              (ProtocolAndAddress (P2P_ListenAddress (P2P (config n)))).2);
            EvSwitchStart;
            EvDialSeeds (Split1 ","%char (P2P_Seeds (P2P (config n))))]
    /\ listening (OnStart E n w).1.2
         = listening w
           ++ [PeerListener
                 (ProtocolAndAddress (P2P_ListenAddress (P2P (config n)))).1
                 (ProtocolAndAddress (P2P_ListenAddress (P2P (config n)))).2].
Proof.
  intros Hsw Hseeds Hdial. unfold OnStart.
  destruct (ProtocolAndAddress _) as [protocol address].
  unfold bind, NewDefaultListener, emit, DialSeeds, ret, bind. simpl.
  rewrite Hsw. rewrite bool_decide_eq_false_2 by assumption. simpl.
  rewrite Hdial. simpl. eexists. repeat split.
Qed.

End Facts.

(** C4 on a fresh store: the first construction adds the genesis block
    (height 1), and a second construction on what it leaves adds none. *)
Lemma genesis_appended_iff_height_below_one_witness :
  let E := demo_env false false [] in
  let cfg := demo_config true "" ":8001" in
  let w1 := (NewNode E cfg (demo_world 0)).1.2 in
  store w1 = 1%Z
  /\ added_blocks (NewNode E cfg w1).2 = []
  /\ store (NewNode E cfg w1).1.2 = 1%Z.
Proof.
  intros E cfg w1.
  destruct (genesis_appended_iff_height_below_one E cfg (demo_world 0) eq_refl)
    as (_ & _ & Hadd & _ & Hagain).
  split; [apply Hadd; reflexivity|].
  destruct (Hagain cfg) as (Hnone & Hstore & _);
    [vm_compute; discriminate | split; [exact Hnone | exact Hstore]].
Defined.

(** C5 on a store of height 50 and an empty pin store, with the pin store
    of [Pins]: the two pins are created at height 49, and they are the pins
    the store holds when the constructor returns. *)
Lemma two_pins_created_below_tip_witness :
  let E := demo_env false false [] in
  let cfg := demo_config true "" ":8001" in
  created_pins (NewNode E cfg (demo_world 50)).2
    = [("account", 49%Z); ("delete-account-spents", 49%Z)]
  /\ pins (NewNode E cfg (demo_world 50)).1.2 !! "account" = Some 49%Z
  /\ pins (NewNode E cfg (demo_world 50)).1.2 !! "delete-account-spents"
       = Some 49%Z
  /\ pins (NewNode E cfg (demo_world 50)).1.2 !! "utxo" = None.
Proof.
  intros E cfg.
  destruct (two_pins_created_below_tip E cfg (demo_world 50)
              (demo_node true "" ":8001") eq_refl eq_refl
              ltac:(vm_compute; split; [discriminate | reflexivity]))
    as (Hcalls & _ & _ & _ & _ & _ & loaded & first & Hload & _ & _ & Hstore).
  split; [exact Hcalls|].
  destruct (Hstore (fun ps name => ps !! name)
              (PinsProps.CreatePin_meets_contract string))
    as (_ & Hnew & Hothers).
  inversion Hload; subst loaded.
  split; [apply (Hnew "account"); [left|]; reflexivity|].
  split; [apply (Hnew "delete-account-spents"); [right|]; reflexivity|].
  rewrite (Hothers "utxo"); [reflexivity | discriminate | discriminate].
Defined.

(** With the pin store of [Pins], a construction on a store of height 50
    creates the pins at 49, and a later construction on the same stores, the
    chain having grown to 60, leaves them at 49. *)
Example pins_survive_second_construction :
  let E := demo_env false false [] in
  let cfg := demo_config true "" ":8001" in
  let w1 := (NewNode E cfg (demo_world 50)).1.2 in
  let w2 := (NewNode E cfg (set_store w1 60%Z)).1.2 in
  map_to_list (pins w1) = [("account", 49%Z); ("delete-account-spents", 49%Z)]
  /\ created_pins (NewNode E cfg (set_store w1 60%Z)).2
       = [("account", 59%Z); ("delete-account-spents", 59%Z)]
  /\ pins w2 = pins w1.
Proof. repeat split; vm_compute; reflexivity. Qed.

(** C7 where [LoadAll] fails on a store of height 50. *)
Lemma LoadAll_failure_returns_nil_witness :
  (NewNode (demo_env true false []) (demo_config true "" ":8001")
     (demo_world 50)).1.1 = Return None.
Proof.
  apply (proj1 (LoadAll_failure_returns_nil (demo_env true false [])
                  (demo_config true "" ":8001") (demo_world 50)
                  "pin: load failed" eq_refl eq_refl eq_refl eq_refl)).
Defined.

(** C7 as stated fails there: the constructor does not end the process, it
    returns nil to its caller after logging the error. *)
Lemma LoadAll_failure_does_not_exit :
  pinStore_LoadAll (demo_env true false []) (pins (demo_world 50))
    = Err "pin: load failed"
  /\ NewNode (demo_env true false []) (demo_config true "" ":8001")
       (demo_world 50)
     = (Return None, demo_world 50,
        [EvEventSwitchStart; EvLoadAll; EvLogError "pin: load failed"])
  /\ forall how err,
       (NewNode (demo_env true false []) (demo_config true "" ":8001")
          (demo_world 50)).1.1 <> Exited how err.
Proof.
  split; [reflexivity|]. split; [reflexivity|].
  intros how err H. vm_compute in H. discriminate.
Qed.



(** C2 with the addresses [:8001] and [:8002], the second being taken. *)
Lemma startRPC_bind_failure_closes_nothing_witness :
  listening (startRPC (demo_env false false [":8002"])
               (demo_node false "" ":8001,:8002") (demo_world 1)).1.2
    = [HTTPListener ":8001"].
Proof.
  apply (proj1 (proj2 (startRPC_bind_failure_closes_nothing
                  (demo_env false false [":8002"])
                  (demo_node false "" ":8001,:8002") (demo_world 1)
                  [":8001"] ":8002" [] "address already in use" eq_refl
                  ltac:(intros [|k] a Hk;
                        [inversion Hk; reflexivity | discriminate])
                  eq_refl))).
Defined.

(** C2 as stated fails there: [startRPC] returns the error, and the
    listener on [:8001], bound in the same call, has not been closed. *)
Lemma startRPC_leaves_listener_open :
  startRPC (demo_env false false [":8002"])
    (demo_node false "" ":8001,:8002") (demo_world 1)
  = (Return ([], Some "address already in use"),
     {| store := 1%Z; pins := ∅; listening := [HTTPListener ":8001"] |},
     [EvConfigureRPC; EvBind (HTTPListener ":8001");
      EvBind (HTTPListener ":8002")])
  /\ HTTPListener ":8001"
       ∈ listening (startRPC (demo_env false false [":8002"])
                      (demo_node false "" ":8001,:8002") (demo_world 1)).1.2
  /\ closed (startRPC (demo_env false false [":8002"])
               (demo_node false "" ":8001,:8002") (demo_world 1)).2 = [].
Proof.
  split; [reflexivity|]. split; [|reflexivity].
  vm_compute. apply list_elem_of_here.
Qed.

(** C3 with one seed that cannot be dialed and an RPC address configured. *)
Lemma seed_dial_failure_aborts_start_witness :
  exists n',
    (OnStart (demo_env false true []) (demo_node false "1.2.3.4:46656" ":8001")
       (demo_world 1)).1.1 = Return (n', Some "dial: no route to host")
    /\ rpcListeners n' = [].
Proof.
  destruct (seed_dial_failure_aborts_start (demo_env false true [])
              (demo_node false "1.2.3.4:46656" ":8001") (demo_world 1)
              "dial: no route to host" eq_refl ltac:(discriminate) eq_refl)
    as (n' & Hret & Hrpc & _).
  exists n'. split; [exact Hret | exact Hrpc].
Defined.

(** C3 as stated fails there: [OnStart] returns the dial error, and the RPC
    address [:8001] is never bound. *)
Lemma seed_dial_failure_is_returned :
  (OnStart (demo_env false true []) (demo_node false "1.2.3.4:46656" ":8001")
     (demo_world 1)).1.1
  = Return ({| config := demo_config false "1.2.3.4:46656" ":8001";
               sw := {| reactors := ["BLOCKCHAIN"];
                        sw_listeners := [PeerListener "tcp" "0.0.0.0:46656"];
                        sw_running := true |};
               has_addrBook := false; has_wallet := false;
               rpcListeners := [] |},
            Some "dial: no route to host")
  /\ bound (OnStart (demo_env false true [])
              (demo_node false "1.2.3.4:46656" ":8001") (demo_world 1)).2
     = [PeerListener "tcp" "0.0.0.0:46656"]
  /\ listening (OnStart (demo_env false true [])
                  (demo_node false "1.2.3.4:46656" ":8001") (demo_world 1)).1.2
     = [PeerListener "tcp" "0.0.0.0:46656"].
Proof. repeat split. Qed.

(** ** Further properties of the constructor *)

Ltac plain_scrutinee x :=
  lazymatch x with
  | context [match _ with _ => _ end] => fail
  | _ => idtac
  end.

Ltac split_paths :=
  repeat (simpl;
          match goal with
          | |- context [match ?x with _ => _ end] =>
              plain_scrutinee x; destruct x eqn:?
          end);
  simpl.

(** Membership in a list that is written out. *)
Ltac in_list :=
  repeat match goal with
         | H : _ ∈ _ :: _ |- _ => apply elem_of_cons in H as [H | H]
         | H : _ ∈ [] |- _ => apply elem_of_nil in H; contradiction
         end;
  try congruence;
  try (intros Hin;
       repeat match goal with
              | H : _ ∈ _ :: _ |- _ => apply elem_of_cons in H as [H | H]
              | H : _ ∈ [] |- _ => apply elem_of_nil in H; contradiction
              end;
       congruence).

Ltac unfold_node :=
  unfold NewNode, finish, rpcInit, start_event_switch, genesis_bootstrap,
    create_pins, Listen, ListenAndServe, LoadAll, CreatePin, AddBlock, Height,
    bind, ret, emit, exit.

Section Construction.

Context {error Store PinStore Block : Type}.
Implicit Types (E : Env error Store PinStore Block).
Implicit Types (w : world Store PinStore) (n : Node) (cfg : Config).

(** X11: the constructor returns nil in one situation only: the event
    switch started, the genesis step passed, wallet features are enabled and
    [LoadAll] failed.  A nil node therefore always means that the pins could
    not be loaded. *)
Theorem NewNode_nil_iff_LoadAll_fails E cfg w :
  (NewNode E cfg w).1.1 = Return None
  <-> (eventSwitch_Start E = None
       /\ (genesis_bootstrap E w).1.1 = Return tt
       /\ Wallet_Enable cfg = true
       /\ exists err, pinStore_LoadAll E (pins w) = Err err).
Proof.
  split.
  - unfold_node. split_paths; intros H; try discriminate;
      repeat split; eauto.
  - intros (Hsw & Hgen & Hwal & err & Hload). revert Hgen.
    unfold_node. rewrite Hsw, Hwal.
    split_paths; intros; try discriminate; simpl in *;
      try (rewrite Hload in *; simplify_eq); reflexivity.
Qed.

(** X12: when the constructor ends the process, it does so before the node
    is reachable: no socket has been bound, none is open that was not, and no
    serving goroutine was started.  The exit is one of four: the event switch
    did not start, the chain refused the genesis block, a pin could not be
    created, or the key store could not be initialised. *)
Theorem NewNode_exits_before_listening E cfg w how err :
  (NewNode E cfg w).1.1 = Exited how err ->
  bound (NewNode E cfg w).2 = []
  /\ listening (NewNode E cfg w).1.2 = listening w
  /\ (forall g, g ∈ spawned (NewNode E cfg w).2 -> g = GoProcessBlocks)
  /\ (EvGateSet ∉ (NewNode E cfg w).2)
  /\ ((how = CmnExit "Failed to start switch: %v"
       /\ err = eventSwitch_Start E
       /\ (NewNode E cfg w).2 = [EvEventSwitchStart])
      \/ (how = CmnExit "Failed to add genesisBlock to Chain: %v"
          /\ (store_Height E (store w) < 1)%Z
          /\ exists e, chain_AddBlock E (store w) (genesisBlock E) = Err e
                       /\ err = Some e)
      \/ (how = LogFatalkv /\ Wallet_Enable cfg = true
          /\ exists name height,
               last (created_pins (NewNode E cfg w).2) = Some (name, height))
      \/ (how = CmnExit "initialize HSM failed: %v"
          /\ err = pseudohsm_New E)).
Proof.
  unfold_node.
  split_paths; intros H; try discriminate; inversion H; subst; clear H;
    (split; [reflexivity|]); (split; [reflexivity|]);
    (split; [intros g Hg; in_list|]); (split; [in_list|]);
    first [ solve [left; repeat split; congruence]
          | solve [right; left; repeat split;
                   [ apply Z.ltb_lt; assumption | eexists; split; eauto ]]
          | solve [right; right; left;
                   split; [reflexivity|];
                   split; [reflexivity | eexists _, _; reflexivity]]
          | solve [right; right; right; repeat split; congruence] ].
Qed.

(** X13: with wallet features disabled the constructor does not touch the
    pin store: no [LoadAll], no [CreatePin], no indexing goroutine; it never
    returns nil, and the node it returns has no wallet. *)
Theorem NewNode_without_wallet E cfg w :
  Wallet_Enable cfg = false ->
  created_pins (NewNode E cfg w).2 = []
  /\ (EvLoadAll ∉ (NewNode E cfg w).2)
  /\ (GoProcessBlocks ∉ spawned (NewNode E cfg w).2)
  /\ pins (NewNode E cfg w).1.2 = pins w
  /\ (NewNode E cfg w).1.1 <> Return None
  /\ (forall n, (NewNode E cfg w).1.1 = Return (Some n) ->
        has_wallet n = false).
Proof.
  intros Hwal. unfold_node. rewrite Hwal.
  split_paths; repeat split; try reflexivity; try discriminate;
    try solve [in_list]; intros n Hn; inversion Hn; reflexivity.
Qed.

(** X14: the indexing goroutine is started only after the pins are in
    place.  If the constructor has started [accounts.ProcessBlocks], then
    before that, in this order, the genesis step was done, [LoadAll]
    succeeded and both [CreatePin] calls succeeded; nothing was bound
    before; and the pin store is the one the second [CreatePin] returned. *)
Theorem ProcessBlocks_starts_after_pins E cfg w :
  GoProcessBlocks ∈ spawned (NewNode E cfg w).2 ->
  exists p1 p2 p3 rest,
    pinStore_LoadAll E (pins w) = Ok p1
    /\ pinStore_CreatePin E p1 (account_PinName E)
         (initial_pin_height
            (store_Height E (store (genesis_bootstrap E w).1.2))) = Ok p2
    /\ pinStore_CreatePin E p2 (account_DeleteSpentsPinName E)
         (initial_pin_height
            (store_Height E (store (genesis_bootstrap E w).1.2))) = Ok p3
    /\ pins (NewNode E cfg w).1.2 = p3
    /\ (NewNode E cfg w).2
         = [EvEventSwitchStart] ++ (genesis_bootstrap E w).2
           ++ [EvLoadAll;
               EvCreatePin (account_PinName E)
                 (initial_pin_height
                    (store_Height E (store (genesis_bootstrap E w).1.2)));
               EvCreatePin (account_DeleteSpentsPinName E)
                 (initial_pin_height
                    (store_Height E (store (genesis_bootstrap E w).1.2)));
               EvGo GoProcessBlocks]
           ++ rest
    /\ bound ((genesis_bootstrap E w).2) = [].
Proof.
  unfold_node.
  split_paths; intros H; try solve [exfalso; in_list];
    eexists _, _, _, _; repeat split; eauto.
Qed.

(** X15: a failing [CreatePin] ends the process at once, through
    [Fatalkv] with that error.  If it is the first, the second pin is never
    attempted; if it is the second, the first pin stays created.  Either way
    no goroutine has been started and nothing has been bound. *)
Theorem CreatePin_failure_is_fatal E cfg w p1 err :
  Wallet_Enable cfg = true ->
  eventSwitch_Start E = None ->
  (genesis_bootstrap E w).1.1 = Return tt ->
  pinStore_LoadAll E (pins w) = Ok p1 ->
  (pinStore_CreatePin E p1 (account_PinName E)
     (initial_pin_height
        (store_Height E (store (genesis_bootstrap E w).1.2))) = Err err ->
   (NewNode E cfg w).1.1 = Exited LogFatalkv (Some err)
   /\ created_pins (NewNode E cfg w).2
        = [(account_PinName E,
            initial_pin_height
              (store_Height E (store (genesis_bootstrap E w).1.2)))]
   /\ pins (NewNode E cfg w).1.2 = p1
   /\ spawned (NewNode E cfg w).2 = []
   /\ bound (NewNode E cfg w).2 = [])
  /\ (forall p2,
        pinStore_CreatePin E p1 (account_PinName E)
          (initial_pin_height
             (store_Height E (store (genesis_bootstrap E w).1.2))) = Ok p2 ->
        pinStore_CreatePin E p2 (account_DeleteSpentsPinName E)
          (initial_pin_height
             (store_Height E (store (genesis_bootstrap E w).1.2))) = Err err ->
        (NewNode E cfg w).1.1 = Exited LogFatalkv (Some err)
        /\ length (created_pins (NewNode E cfg w).2) = 2
        /\ pins (NewNode E cfg w).1.2 = p2
        /\ spawned (NewNode E cfg w).2 = []
        /\ bound (NewNode E cfg w).2 = []).
Proof.
  intros Hwal Hsw Hgen Hload. revert Hgen. unfold_node. rewrite Hwal, Hsw.
  split_paths; intros Hgen; try discriminate; simpl in *;
    rewrite ?Hload in *; simplify_eq;
    (split; [intros Hc1 | intros p2 Hc1 Hc2]);
    simpl in *;
    repeat match goal with
           | H1 : ?x = Ok _, H2 : ?x = Err _ |- _ =>
               rewrite H1 in H2; discriminate
           | H1 : ?x = Ok ?a, H2 : ?x = Ok ?b |- _ =>
               rewrite H1 in H2; inversion H2; subst; clear H2
           | H1 : ?x = Err ?a, H2 : ?x = Err ?b |- _ =>
               rewrite H1 in H2; inversion H2; subst; clear H2
           end;
    repeat split; reflexivity.
Qed.

(** X16: the node the constructor returns, and the goroutines it leaves
    running.  The node carries the configuration it was given; its switch has
    the BLOCKCHAIN reactor, followed by PEX exactly when peer exchange is
    configured, which is also when it has an address book; it has a wallet
    exactly when wallet features are enabled.  The goroutines started are, in
    this order, the block indexer (with a wallet), the API server, and the
    profile server when a profile address is configured. *)
Theorem NewNode_returns_wired_node E cfg w n :
  (NewNode E cfg w).1.1 = Return (Some n) ->
  config n = cfg
  /\ reactors (sw n)
       = "BLOCKCHAIN" :: (if P2P_PexReactor (P2P cfg) then ["PEX"] else [])
  /\ has_addrBook n = P2P_PexReactor (P2P cfg)
  /\ has_wallet n = Wallet_Enable cfg
  /\ spawned (NewNode E cfg w).2
       = (if Wallet_Enable cfg then [GoProcessBlocks] else [])
         ++ [GoServe match net_Listen E (listening w)
                             (env_String E "LISTEN" (ApiAddress cfg)) with
                     | None => Some (ApiListener
                                       (env_String E "LISTEN" (ApiAddress cfg)))
                     | Some _ => None
                     end]
         ++ (if bool_decide (ProfListenAddress cfg = "") then []
             else [GoProfileServer (ProfListenAddress cfg)])
  /\ closed (NewNode E cfg w).2 = [].
Proof.
  unfold_node.
  split_paths; intros H; try discriminate; inversion H; subst; clear H;
    simpl; repeat split; reflexivity.
Qed.

End Construction.

(** ** Further properties of start and stop *)

Section Lifecycle.

Context {error Store PinStore Block : Type}.
Implicit Types (E : Env error Store PinStore Block).
Implicit Types (w : world Store PinStore) (n : Node) (cfg : Config).

(** The RPC loop when every address can be bound: the slice is filled from
    index [length done] on, one listener per address. *)
Lemma bind_loop_ok E addrs : forall done w,
  (forall k a, addrs !! k = Some a ->
     rpcserver_StartHTTPServer E
       (listening w ++ map HTTPListener (take k addrs)) a = None) ->
  bind_loop E (length done) addrs (done ++ replicate (length addrs) None) w
    = (Return (done ++ map (fun a => Some (HTTPListener a)) addrs, None),
       set_listening w (listening w ++ map HTTPListener addrs),
       map (fun a => EvBind (HTTPListener a)) addrs).
Proof.
  induction addrs as [|a rest IH]; intros done w Hok.
  - simpl. unfold ret. destruct w. unfold set_listening. simpl.
    rewrite !app_nil_r. reflexivity.
  - pose proof (Hok 0 a eq_refl) as Ha. simpl in Ha. rewrite app_nil_r in Ha.
    simpl. unfold bind at 1. unfold StartHTTPServer at 1. rewrite Ha.
    rewrite insert_app_r_alt by lia. rewrite Nat.sub_diag. simpl.
    replace (done ++ Some (HTTPListener a) :: replicate (length rest) None)
      with ((done ++ [Some (HTTPListener a)]) ++ replicate (length rest) None)
      by (rewrite <- app_assoc; reflexivity).
    replace (S (length done)) with (length (done ++ [Some (HTTPListener a)]))
      by (rewrite length_app; simpl; lia).
    rewrite (IH (done ++ [Some (HTTPListener a)])
               (set_listening w (listening w ++ [HTTPListener a]))).
    + destruct w. unfold set_listening. simpl.
      rewrite <- !app_assoc. reflexivity.
    + intros k a' Hk. simpl. rewrite <- app_assoc. apply (Hok (S k) a' Hk).
Qed.

Lemma bound_app (evs1 evs2 : list (event error Block)) :
  bound (evs1 ++ evs2) = bound evs1 ++ bound evs2.
Proof. apply omap_app. Qed.

Lemma closed_app (evs1 evs2 : list (event error Block)) :
  closed (evs1 ++ evs2) = closed evs1 ++ closed evs2.
Proof. apply omap_app. Qed.

Lemma bound_binds (addrs : list string) :
  bound (map (fun a => @EvBind error Block (HTTPListener a)) addrs)
    = map HTTPListener addrs.
Proof. induction addrs as [|a l IH]; simpl; [reflexivity|]. f_equal. exact IH. Qed.

Lemma closed_binds (addrs : list string) :
  closed (map (fun a => @EvBind error Block (HTTPListener a)) addrs) = [].
Proof. induction addrs as [|a l IH]; simpl; [reflexivity | exact IH]. Qed.

(** [startRPC] run on addresses that can all be bound, up to the gRPC
    part. *)
Lemma startRPC_http_ok E n w :
  (forall k a,
     Split1 ","%char (RPC_ListenAddress (RPC (config n))) !! k = Some a ->
     rpcserver_StartHTTPServer E
       (listening w
        ++ map HTTPListener
             (take k (Split1 ","%char (RPC_ListenAddress (RPC (config n))))))
       a = None) ->
  exists evs0,
    bound evs0 = [] /\ closed evs0 = []
    /\ startRPC E n w
       = let addrs := Split1 ","%char (RPC_ListenAddress (RPC (config n))) in
         let w1 := set_listening w (listening w ++ map HTTPListener addrs) in
         let evs1 := evs0 ++ map (fun a => EvBind (HTTPListener a)) addrs in
         let ls := map (fun a => Some (HTTPListener a)) addrs in
         let grpc := RPC_GRPCListenAddress (RPC (config n)) in
         if negb (bool_decide (grpc = "")) then
           match grpccore_StartGRPCServer E (listening w1) grpc with
           | None => (Return (ls ++ [Some (GRPCListener grpc)], None),
                      set_listening w1 (listening w1 ++ [GRPCListener grpc]),
                      evs1 ++ [EvBind (GRPCListener grpc)])
           | Some err => (Return ([], Some err), w1,
                          evs1 ++ [EvBind (GRPCListener grpc)])
           end
         else (Return (ls, None), w1, evs1).
Proof.
  intros Hok. unfold startRPC.
  pose proof (bind_loop_ok E _ [] w Hok) as Hloop. simpl in Hloop.
  exists (EvConfigureRPC ::
          if RPC_Unsafe (RPC (config n)) then [EvAddUnsafeRoutes] else []).
  split; [destruct (RPC_Unsafe _); reflexivity|].
  split; [destruct (RPC_Unsafe _); reflexivity|].
  unfold bind at 1. unfold emit at 1. unfold bind at 1.
  destruct (RPC_Unsafe (RPC (config n))); unfold emit, ret; simpl;
    unfold bind; rewrite Hloop; simpl;
    destruct (negb (bool_decide (RPC_GRPCListenAddress (RPC (config n)) = "")));
    simpl; unfold StartGRPCServer; simpl;
    try destruct (grpccore_StartGRPCServer E _ _); simpl;
    rewrite ?app_nil_r; reflexivity.
Qed.

(** X17: when every configured address can be bound, and the gRPC address
    too if there is one, [startRPC] returns no error and a slice with one
    listener per address, in configuration order, the gRPC listener last: no
    entry is nil.  Exactly these sockets have been opened, and none
    closed. *)
Theorem startRPC_binds_every_address E n w :
  (forall k a,
     Split1 ","%char (RPC_ListenAddress (RPC (config n))) !! k = Some a ->
     rpcserver_StartHTTPServer E
       (listening w
        ++ map HTTPListener
             (take k (Split1 ","%char (RPC_ListenAddress (RPC (config n))))))
       a = None) ->
  (RPC_GRPCListenAddress (RPC (config n)) <> "" ->
   grpccore_StartGRPCServer E
     (listening w
      ++ map HTTPListener
           (Split1 ","%char (RPC_ListenAddress (RPC (config n)))))
     (RPC_GRPCListenAddress (RPC (config n))) = None) ->
  exists ls,
    ls = map HTTPListener
           (Split1 ","%char (RPC_ListenAddress (RPC (config n))))
         ++ (if bool_decide (RPC_GRPCListenAddress (RPC (config n)) = "")
             then []
             else [GRPCListener (RPC_GRPCListenAddress (RPC (config n)))])
    /\ (startRPC E n w).1.1 = Return (map Some ls, None)
    /\ listening (startRPC E n w).1.2 = listening w ++ ls
    /\ bound (startRPC E n w).2 = ls
    /\ closed (startRPC E n w).2 = []
    /\ ls <> [].
Proof.
  intros Hok Hgrpc.
  destruct (startRPC_http_ok E n w Hok) as (evs0 & Hb0 & Hc0 & Hrun).
  rewrite Hrun. clear Hrun. simpl.
  eexists. split; [reflexivity|].
  destruct (bool_decide (RPC_GRPCListenAddress (RPC (config n)) = ""))
    eqn:Hempty; simpl.
  - rewrite app_nil_r.
    rewrite !bound_app, !closed_app, Hb0, Hc0.
    rewrite bound_binds, closed_binds. simpl. rewrite map_map.
    repeat split; try reflexivity.
    destruct (Split1 _ _) eqn:Hs; [|discriminate].
    destruct (Split1_not_nil _ _ Hs).
  - apply bool_decide_eq_false_1 in Hempty. rewrite (Hgrpc Hempty). simpl.
    rewrite !bound_app, !closed_app, Hb0, Hc0.
    rewrite bound_binds, closed_binds. simpl.
    rewrite map_app, map_map. simpl. rewrite <- app_assoc.
    repeat split; try reflexivity.
    intros Hnil. apply app_eq_nil in Hnil as [_ Hnil]. discriminate.
Qed.

(** X18: when the HTTP addresses are bound and the gRPC address cannot be,
    [startRPC] returns the gRPC error with a nil slice; the HTTP listeners it
    has just bound are not closed and stay open. *)
Theorem startRPC_grpc_failure_closes_nothing E n w err :
  (forall k a,
     Split1 ","%char (RPC_ListenAddress (RPC (config n))) !! k = Some a ->
     rpcserver_StartHTTPServer E
       (listening w
        ++ map HTTPListener
             (take k (Split1 ","%char (RPC_ListenAddress (RPC (config n))))))
       a = None) ->
  RPC_GRPCListenAddress (RPC (config n)) <> "" ->
  grpccore_StartGRPCServer E
    (listening w
     ++ map HTTPListener
          (Split1 ","%char (RPC_ListenAddress (RPC (config n)))))
    (RPC_GRPCListenAddress (RPC (config n))) = Some err ->
  (startRPC E n w).1.1 = Return ([], Some err)
  /\ listening (startRPC E n w).1.2
       = listening w
         ++ map HTTPListener
              (Split1 ","%char (RPC_ListenAddress (RPC (config n))))
  /\ closed (startRPC E n w).2 = []
  /\ bound (startRPC E n w).2
       = map HTTPListener
           (Split1 ","%char (RPC_ListenAddress (RPC (config n))))
         ++ [GRPCListener (RPC_GRPCListenAddress (RPC (config n)))].
Proof.
  intros Hok Hne Hgrpc.
  destruct (startRPC_http_ok E n w Hok) as (evs0 & Hb0 & Hc0 & Hrun).
  rewrite Hrun. clear Hrun. simpl.
  rewrite bool_decide_eq_false_2 by exact Hne. simpl. rewrite Hgrpc. simpl.
  rewrite !bound_app, !closed_app, Hb0, Hc0.
  rewrite bound_binds, closed_binds. simpl. repeat split; reflexivity.
Qed.

(** [startRPC] up to the first address that cannot be bound. *)
Lemma startRPC_http_fails E n w pre bad post err :
  Split1 ","%char (RPC_ListenAddress (RPC (config n))) = pre ++ bad :: post ->
  (forall k a, pre !! k = Some a ->
     rpcserver_StartHTTPServer E
       (listening w ++ map HTTPListener (take k pre)) a = None) ->
  rpcserver_StartHTTPServer E (listening w ++ map HTTPListener pre) bad
    = Some err ->
  exists evs,
    closed evs = []
    /\ startRPC E n w
       = (Return ([], Some err),
          set_listening w (listening w ++ map HTTPListener pre), evs).
Proof.
  intros Hsplit Hpre Hbad. unfold startRPC. rewrite Hsplit.
  unfold bind at 1. unfold emit at 1. unfold bind at 1.
  destruct (RPC_Unsafe (RPC (config n))); unfold emit, ret; simpl;
    unfold bind; rewrite (bind_loop_fails E pre _ _ _ bad post err Hpre Hbad);
    simpl; eexists; (split; [|reflexivity]);
    rewrite app_nil_r; simpl; apply closed_binds.
Qed.

(** [OnStart] from the dial on, when the switch has started and the seeds,
    if any, could be dialed, and an RPC address is configured. *)
Lemma OnStart_reaches_rpc E n w :
  sw_Start E = None ->
  (P2P_Seeds (P2P (config n)) = ""
   \/ sw_DialSeeds E (Split1 ","%char (P2P_Seeds (P2P (config n)))) = None) ->
  RPC_ListenAddress (RPC (config n)) <> "" ->
  exists evs0,
    closed evs0 = []
    /\ bound evs0
       = [PeerListener
            (ProtocolAndAddress (P2P_ListenAddress (P2P (config n)))).1
            (ProtocolAndAddress (P2P_ListenAddress (P2P (config n)))).2]
    /\ OnStart E n w
       = let peer :=
           PeerListener
             (ProtocolAndAddress (P2P_ListenAddress (P2P (config n)))).1
             (ProtocolAndAddress (P2P_ListenAddress (P2P (config n)))).2 in
         let n2 := set_sw n (Started (AddListener peer (sw n))) in
         match startRPC E n2 (set_listening w (listening w ++ [peer])) with
         | (Return (ls, Some err), w2, evs) =>
             (Return (n2, Some err), w2, evs0 ++ evs)
         | (Return (ls, None), w2, evs) =>
             (Return (set_rpcListeners n2 ls, None), w2, evs0 ++ evs)
         | (Exited how err, w2, evs) => (Exited how err, w2, evs0 ++ evs)
         end.
Proof.
  intros Hsw Hseeds Hrpc. unfold OnStart.
  destruct (ProtocolAndAddress _) as [protocol address]. simpl.
  unfold bind at 1. unfold NewDefaultListener at 1.
  unfold bind at 1. unfold emit at 1. rewrite Hsw.
  unfold bind at 1.
  rewrite (bool_decide_eq_false_2 (RPC_ListenAddress (RPC (config n)) = ""))
    by exact Hrpc.
  destruct Hseeds as [Hnone | Hdial].
  - rewrite Hnone. simpl. unfold ret at 1. unfold bind.
    exists [EvBind (PeerListener protocol address); EvSwitchStart].
    split; [reflexivity|]. split; [reflexivity|].
    unfold set_sw, Started, AddListener. simpl.
    destruct (startRPC E _ _) as [[[[ls [e|]]|how e] w2] evs];
      simpl; rewrite ?app_nil_r; reflexivity.
  - destruct (bool_decide (P2P_Seeds (P2P (config n)) = "")); simpl.
    + unfold ret at 1. unfold bind.
      exists [EvBind (PeerListener protocol address); EvSwitchStart].
      split; [reflexivity|]. split; [reflexivity|].
      unfold set_sw, Started, AddListener. simpl.
      destruct (startRPC E _ _) as [[[[ls [e|]]|how e] w2] evs];
        simpl; rewrite ?app_nil_r; reflexivity.
    + unfold DialSeeds, bind, emit, ret. simpl. rewrite Hdial.
      exists [EvBind (PeerListener protocol address); EvSwitchStart;
              EvDialSeeds (Split1 ","%char (P2P_Seeds (P2P (config n))))].
      split; [reflexivity|]. split; [reflexivity|].
      unfold set_sw, Started, AddListener. simpl.
      destruct (startRPC E _ _) as [[[[ls [e|]]|how e] w2] evs];
        simpl; rewrite ?app_nil_r; reflexivity.
Qed.

(** After [close_all], a socket is open if it was and is not among those
    closed. *)
Lemma close_all_listening E ls : forall w x,
  x ∈ listening (close_all E (map Some ls) w).1.2
  <-> x ∈ listening w /\ x ∉ ls.
Proof.
  induction ls as [|l rest IH]; intros w x; simpl.
  - split; [intros Hx; split; [exact Hx | apply not_elem_of_nil] | tauto].
  - unfold bind, Close.
    specialize (IH (set_listening w
                      (filter (fun l' => l' <> l) (listening w))) x).
    destruct (close_all E (map Some rest) _) as [[r w'] evs]. simpl in *.
    rewrite IH, list_elem_of_filter, not_elem_of_cons. tauto.
Qed.

(** The errors logged by [close_all] are those the [Close] calls
    returned. *)
Lemma close_all_logs E ls : forall w,
  omap (fun ev => match ev with EvLogError e => Some e | _ => None end)
       (close_all E (map Some ls) w).2
    = omap (listener_Close E) ls.
Proof.
  induction ls as [|l rest IH]; intros w; simpl; [reflexivity|].
  unfold bind, Close.
  specialize (IH (set_listening w (filter (fun l' => l' <> l) (listening w)))).
  destruct (close_all E (map Some rest) _) as [[r w'] evs].
  cbn [fst snd] in *. rewrite omap_app, IH.
  destruct (listener_Close E l); reflexivity.
Qed.

(** X19: the first steps of [OnStart].  It binds the peer socket and asks
    the switch to start.  If the switch does not start, [OnStart] returns
    that error at once: no seed is dialed, no RPC listener is started, and
    the peer socket stays bound.  If the switch starts and neither seeds nor
    an RPC address are configured, [OnStart] is done after these two steps
    and returns no error. *)
Theorem OnStart_until_switch E n w :
  let peer :=
    PeerListener (ProtocolAndAddress (P2P_ListenAddress (P2P (config n)))).1
                 (ProtocolAndAddress (P2P_ListenAddress (P2P (config n)))).2 in
  (forall err, sw_Start E = Some err ->
     OnStart E n w
       = (Return (set_sw n (AddListener peer (sw n)), Some err),
          set_listening w (listening w ++ [peer]),
          [EvBind peer; EvSwitchStart]))
  /\ (sw_Start E = None ->
        P2P_Seeds (P2P (config n)) = "" ->
        RPC_ListenAddress (RPC (config n)) = "" ->
        OnStart E n w
          = (Return (set_sw n (Started (AddListener peer (sw n))), None),
             set_listening w (listening w ++ [peer]),
             [EvBind peer; EvSwitchStart])).
Proof.
  unfold OnStart. destruct (ProtocolAndAddress _) as [protocol address].
  simpl. split.
  - intros err Hsw. unfold bind, NewDefaultListener, emit, ret. simpl.
    rewrite Hsw. reflexivity.
  - intros Hsw Hseeds Hrpc. unfold bind, NewDefaultListener, emit, ret. simpl.
    rewrite Hsw, Hseeds, Hrpc. reflexivity.
Qed.

(** X20: a start in which everything works.  When the switch starts, the
    seeds (if any) are dialed, and every configured RPC address and the gRPC
    address (if any) can be bound, [OnStart] returns no error; the node's
    switch is running with the peer listener attached, and [rpcListeners]
    holds exactly the listeners bound, in configuration order; the sockets
    open are the earlier ones, the peer socket and these. *)
Theorem OnStart_succeeds E n w :
  let peer :=
    PeerListener (ProtocolAndAddress (P2P_ListenAddress (P2P (config n)))).1
                 (ProtocolAndAddress (P2P_ListenAddress (P2P (config n)))).2 in
  let addrs := Split1 ","%char (RPC_ListenAddress (RPC (config n))) in
  let grpc := RPC_GRPCListenAddress (RPC (config n)) in
  sw_Start E = None ->
  (P2P_Seeds (P2P (config n)) = ""
   \/ sw_DialSeeds E (Split1 ","%char (P2P_Seeds (P2P (config n)))) = None) ->
  RPC_ListenAddress (RPC (config n)) <> "" ->
  (forall k a, addrs !! k = Some a ->
     rpcserver_StartHTTPServer E
       ((listening w ++ [peer]) ++ map HTTPListener (take k addrs)) a
       = None) ->
  (grpc <> "" ->
   grpccore_StartGRPCServer E
     ((listening w ++ [peer]) ++ map HTTPListener addrs) grpc = None) ->
  exists n' ls,
    ls = map HTTPListener addrs
         ++ (if bool_decide (grpc = "") then [] else [GRPCListener grpc])
    /\ (OnStart E n w).1.1 = Return (n', None)
    /\ rpcListeners n' = map Some ls
    /\ sw_running (sw n') = true
    /\ sw_listeners (sw n') = sw_listeners (sw n) ++ [peer]
    /\ listening (OnStart E n w).1.2 = listening w ++ [peer] ++ ls
    /\ closed (OnStart E n w).2 = [].
Proof.
  intros peer addrs grpc Hsw Hseeds Hrpc Hok Hgrpc.
  destruct (OnStart_reaches_rpc E n w Hsw Hseeds Hrpc)
    as (evs0 & Hc0 & _ & Hrun).
  rewrite Hrun. clear Hrun. simpl.
  destruct (startRPC_http_ok E
              (set_sw n (Started (AddListener peer (sw n))))
              (set_listening w (listening w ++ [peer])) Hok)
    as (evs1 & _ & Hc1 & Hrpcrun).
  fold peer. rewrite Hrpcrun. clear Hrpcrun. simpl.
  fold addrs grpc.
  destruct (bool_decide (grpc = "")) eqn:Hempty; simpl.
  - eexists _, _. split; [reflexivity|]. simpl.
    rewrite !closed_app, Hc0, Hc1, closed_binds. rewrite app_nil_r, map_map.
    rewrite <- app_assoc. repeat split; reflexivity.
  - apply bool_decide_eq_false_1 in Hempty. rewrite (Hgrpc Hempty). simpl.
    eexists _, _. split; [reflexivity|]. simpl.
    rewrite !closed_app, Hc0, Hc1, closed_binds.
    rewrite map_app, map_map. simpl.
    rewrite <- !app_assoc. repeat split; reflexivity.
Qed.

(** X21: [OnStop] closes every RPC listener of the node, each once and in
    order, whatever the [Close] calls return: their errors are logged and the
    loop goes on, and [OnStop] returns.  Afterwards none of these listeners
    is open, and a socket other than a peer socket is open exactly if it was
    before and is not one of them. *)
Theorem OnStop_closes_every_listener E n w ls :
  rpcListeners n = map Some ls ->
  (OnStop E n w).1.1 = Return tt
  /\ closed (OnStop E n w).2 = ls
  /\ (forall x, x ∈ ls -> x ∉ listening (OnStop E n w).1.2)
  /\ (forall x, (forall protocol address, x <> PeerListener protocol address) ->
        (x ∈ listening (OnStop E n w).1.2 <-> x ∈ listening w /\ x ∉ ls))
  /\ omap (fun ev => match ev with EvLogError e => Some e | _ => None end)
          (OnStop E n w).2
       = omap (listener_Close E) ls
  /\ head (OnStop E n w).2 = Some EvSwitchStop.
Proof.
  intros Hls. unfold OnStop. rewrite Hls. unfold bind, emit.
  pose proof (close_all_closed E ls w) as [Hret Hclosed].
  pose proof (close_all_listening E ls w) as Hopen.
  pose proof (close_all_logs E ls w) as Hlog.
  destruct (close_all E (map Some ls) w) as [[r w'] evs]. simpl in *.
  subst r. split; [reflexivity|]. split; [exact Hclosed|].
  split; [intros x Hx Hin; apply Hopen in Hin; tauto|].
  split; [intros x _; apply Hopen|]. split; [exact Hlog | reflexivity].
Qed.

(** X22: a start that fails on an RPC address leaves sockets that a later
    stop does not close.  When [OnStart] fails because an address cannot be
    bound, the error is returned and [rpcListeners] stays empty, so [OnStop]
    on that node closes no RPC listener: those bound before the failure are
    still open after it. *)
Theorem failed_start_leaks_past_stop E n w pre bad post err :
  let peer :=
    PeerListener (ProtocolAndAddress (P2P_ListenAddress (P2P (config n)))).1
                 (ProtocolAndAddress (P2P_ListenAddress (P2P (config n)))).2 in
  rpcListeners n = [] ->
  sw_Start E = None ->
  (P2P_Seeds (P2P (config n)) = ""
   \/ sw_DialSeeds E (Split1 ","%char (P2P_Seeds (P2P (config n)))) = None) ->
  RPC_ListenAddress (RPC (config n)) <> "" ->
  Split1 ","%char (RPC_ListenAddress (RPC (config n))) = pre ++ bad :: post ->
  (forall k a, pre !! k = Some a ->
     rpcserver_StartHTTPServer E
       ((listening w ++ [peer]) ++ map HTTPListener (take k pre)) a = None) ->
  rpcserver_StartHTTPServer E
    ((listening w ++ [peer]) ++ map HTTPListener pre) bad = Some err ->
  exists n',
    (OnStart E n w).1.1 = Return (n', Some err)
    /\ rpcListeners n' = []
    /\ (OnStop E n' (OnStart E n w).1.2).1.1 = Return tt
    /\ closed (OnStart E n w).2 = []
    /\ closed (OnStop E n' (OnStart E n w).1.2).2 = []
    /\ (forall a, a ∈ pre ->
          HTTPListener a ∈ listening (OnStop E n' (OnStart E n w).1.2).1.2).
Proof.
  intros peer Hnone Hsw Hseeds Hrpc Hsplit Hpre Hbad.
  destruct (OnStart_reaches_rpc E n w Hsw Hseeds Hrpc)
    as (evs0 & Hc0 & _ & Hrun).
  rewrite Hrun. clear Hrun. simpl. fold peer.
  destruct (startRPC_http_fails E
              (set_sw n (Started (AddListener peer (sw n))))
              (set_listening w (listening w ++ [peer]))
              pre bad post err Hsplit Hpre Hbad) as (evs1 & Hc1 & Hrpcrun).
  rewrite Hrpcrun. clear Hrpcrun. simpl.
  eexists. split; [reflexivity|]. simpl.
  unfold OnStop. unfold bind, emit, ret. simpl. rewrite Hnone. simpl.
  rewrite closed_app, Hc0, Hc1.
  repeat split; try reflexivity.
  intros a Ha. apply elem_of_app. right. apply list_elem_of_fmap. eauto.
Qed.

(** X23: start, then stop.  After a start in which everything works,
    [OnStop] closes exactly the RPC listeners that start bound, in order, and
    returns; none of them is open afterwards.  An API socket that was open
    before the start, as the constructor leaves it, is still open after the
    stop: nothing in [OnStop] closes it. *)
Theorem start_then_stop E n w :
  let peer :=
    PeerListener (ProtocolAndAddress (P2P_ListenAddress (P2P (config n)))).1
                 (ProtocolAndAddress (P2P_ListenAddress (P2P (config n)))).2 in
  let addrs := Split1 ","%char (RPC_ListenAddress (RPC (config n))) in
  let grpc := RPC_GRPCListenAddress (RPC (config n)) in
  sw_Start E = None ->
  (P2P_Seeds (P2P (config n)) = ""
   \/ sw_DialSeeds E (Split1 ","%char (P2P_Seeds (P2P (config n)))) = None) ->
  RPC_ListenAddress (RPC (config n)) <> "" ->
  (forall k a, addrs !! k = Some a ->
     rpcserver_StartHTTPServer E
       ((listening w ++ [peer]) ++ map HTTPListener (take k addrs)) a
       = None) ->
  (grpc <> "" ->
   grpccore_StartGRPCServer E
     ((listening w ++ [peer]) ++ map HTTPListener addrs) grpc = None) ->
  exists n' ls,
    ls = map HTTPListener addrs
         ++ (if bool_decide (grpc = "") then [] else [GRPCListener grpc])
    /\ (OnStart E n w).1.1 = Return (n', None)
    /\ (OnStop E n' (OnStart E n w).1.2).1.1 = Return tt
    /\ closed (OnStop E n' (OnStart E n w).1.2).2 = ls
    /\ (forall l, l ∈ ls ->
          l ∉ listening (OnStop E n' (OnStart E n w).1.2).1.2)
    /\ (forall addr, ApiListener addr ∈ listening w ->
          ApiListener addr
            ∈ listening (OnStop E n' (OnStart E n w).1.2).1.2).
Proof.
  intros peer addrs grpc Hsw Hseeds Hrpc Hok Hgrpc.
  destruct (OnStart_reaches_rpc E n w Hsw Hseeds Hrpc)
    as (evs0 & Hc0 & _ & Hrun).
  destruct (startRPC_http_ok E
              (set_sw n (Started (AddListener peer (sw n))))
              (set_listening w (listening w ++ [peer])) Hok)
    as (evs1 & _ & Hc1 & Hrpcrun).
  assert (Hstart : exists n' w',
            (OnStart E n w).1 = (Return (n', None), w')
            /\ rpcListeners n'
               = map Some (map HTTPListener addrs
                           ++ (if bool_decide (grpc = "") then []
                               else [GRPCListener grpc]))
            /\ listening w'
               = listening w ++ [peer]
                 ++ (map HTTPListener addrs
                     ++ (if bool_decide (grpc = "") then []
                         else [GRPCListener grpc]))).
  { rewrite Hrun. simpl. fold peer. rewrite Hrpcrun. simpl. fold addrs grpc.
    destruct (bool_decide (grpc = "")) eqn:Hempty; simpl.
    - eexists _, _. split; [reflexivity|]. simpl.
      rewrite app_nil_r, map_map, <- app_assoc. split; reflexivity.
    - apply bool_decide_eq_false_1 in Hempty. rewrite (Hgrpc Hempty). simpl.
      eexists _, _. split; [reflexivity|]. simpl.
      rewrite map_app, map_map, <- !app_assoc. split; reflexivity. }
  destruct Hstart as (n' & w' & Hres & Hls & Hopen).
  exists n', (map HTTPListener addrs
              ++ (if bool_decide (grpc = "") then []
                  else [GRPCListener grpc])).
  split; [reflexivity|]. rewrite Hres. simpl.
  split; [reflexivity|].
  unfold OnStop. rewrite Hls. unfold bind, emit.
  pose proof (close_all_closed E
                (map HTTPListener addrs
                 ++ (if bool_decide (grpc = "") then []
                     else [GRPCListener grpc])) w') as [Hret Hclosed].
  pose proof (close_all_listening E
                (map HTTPListener addrs
                 ++ (if bool_decide (grpc = "") then []
                     else [GRPCListener grpc])) w') as Hafter.
  destruct (close_all E _ w') as [[r w''] evs]. simpl in *. subst r.
  split; [reflexivity|]. split; [exact Hclosed|]. split.
  - intros l Hl Hin. apply Hafter in Hin. tauto.
  - intros addr Hin. apply Hafter. split.
    + rewrite Hopen. apply elem_of_app. left. exact Hin.
    + intros Hbad. apply elem_of_app in Hbad as [Hbad | Hbad].
      * apply list_elem_of_fmap in Hbad as (a & Ha & _). discriminate.
      * destruct (bool_decide (grpc = "")); [inversion Hbad|].
        apply list_elem_of_singleton in Hbad. discriminate.
Qed.

End Lifecycle.

(** X12 where the key store fails: the process exits with nothing bound. *)
Lemma NewNode_exits_before_listening_witness :
  listening (NewNode (faulty_env true "") (demo_config true "" ":8001")
               (demo_world 50)).1.2 = []
  /\ bound (NewNode (faulty_env true "") (demo_config true "" ":8001")
              (demo_world 50)).2 = [].
Proof.
  destruct (NewNode_exits_before_listening (faulty_env true "")
              (demo_config true "" ":8001") (demo_world 50)
              (CmnExit "initialize HSM failed: %v")
              (Some "hsm: no key directory") eq_refl)
    as (Hbound & Hopen & _).
  split; [exact Hopen | exact Hbound].
Defined.

(** X13 on the demo configuration without wallet. *)
Lemma NewNode_without_wallet_witness :
  pins (NewNode (demo_env false false []) (demo_config false "" ":8001")
          (demo_world 50)).1.2 = ∅.
Proof.
  destruct (NewNode_without_wallet (demo_env false false [])
              (demo_config false "" ":8001") (demo_world 50) eq_refl)
    as (_ & _ & _ & Hpins & _).
  exact Hpins.
Defined.

(** X14 on the demo configuration with wallet, at height 50. *)
Lemma ProcessBlocks_starts_after_pins_witness :
  exists p3 : gmap string Z,
    pins (NewNode (demo_env false false []) (demo_config true "" ":8001")
            (demo_world 50)).1.2 = p3
    /\ p3 !! "account" = Some 49%Z.
Proof.
  destruct (ProcessBlocks_starts_after_pins (demo_env false false [])
              (demo_config true "" ":8001") (demo_world 50))
    as (p1 & p2 & p3 & rest & Hload & Hc1 & Hc2 & Hpins & _).
  { vm_compute. apply list_elem_of_here. }
  exists p3. split; [exact Hpins|].
  inversion Hload; subst p1. inversion Hc1; subst p2. inversion Hc2; subst p3.
  reflexivity.
Defined.

(** X15 where the second pin cannot be created: the first one stays. *)
Lemma CreatePin_failure_is_fatal_witness :
  (NewNode (faulty_env false "delete-account-spents")
     (demo_config true "" ":8001") (demo_world 50)).1.1
    = Exited LogFatalkv (Some "pin: write failed")
  /\ pins (NewNode (faulty_env false "delete-account-spents")
             (demo_config true "" ":8001") (demo_world 50)).1.2
     = {[ "account" := 49%Z ]}.
Proof.
  destruct (CreatePin_failure_is_fatal
              (faulty_env false "delete-account-spents")
              (demo_config true "" ":8001") (demo_world 50) ∅
              "pin: write failed" eq_refl eq_refl eq_refl eq_refl)
    as [_ Hsecond].
  destruct (Hsecond {[ "account" := 49%Z ]} eq_refl eq_refl)
    as (Hexit & _ & Hpins & _).
  split; [exact Hexit | exact Hpins].
Defined.

(** X16 on the demo configuration with wallet. *)
Lemma NewNode_returns_wired_node_witness :
  spawned (NewNode (demo_env false false []) (demo_config true "" ":8001")
             (demo_world 50)).2
    = [GoProcessBlocks; GoServe (Some (ApiListener "0.0.0.0:1999"))].
Proof.
  destruct (NewNode_returns_wired_node (demo_env false false [])
              (demo_config true "" ":8001") (demo_world 50)
              (demo_node true "" ":8001") eq_refl)
    as (_ & _ & _ & _ & Hgo & _).
  exact Hgo.
Defined.

(** X17 on [grpc_node]: three listeners, the gRPC one last. *)
Lemma startRPC_binds_every_address_witness :
  (startRPC (faulty_env false "") grpc_node (demo_world 1)).1.1
    = Return ([Some (HTTPListener ":8001"); Some (HTTPListener ":8002");
               Some (GRPCListener ":9090")], None).
Proof.
  destruct (startRPC_binds_every_address (faulty_env false "") grpc_node
              (demo_world 1)
              ltac:(intros; reflexivity) ltac:(intros; reflexivity))
    as (ls & Hls & Hret & _).
  rewrite Hret, Hls. reflexivity.
Defined.

(** X18 on [grpc_node] when the gRPC address is taken. *)
Lemma startRPC_grpc_failure_closes_nothing_witness :
  listening (startRPC (demo_env false false [":9090"]) grpc_node
               (demo_world 1)).1.2
    = [HTTPListener ":8001"; HTTPListener ":8002"].
Proof.
  destruct (startRPC_grpc_failure_closes_nothing
              (demo_env false false [":9090"]) grpc_node (demo_world 1)
              "address already in use")
    as (_ & Hopen & _).
  - intros [|[|k]] a Hk; inversion Hk; reflexivity.
  - discriminate.
  - reflexivity.
  - exact Hopen.
Defined.

(** X20 on [grpc_node]. *)
Lemma OnStart_succeeds_witness :
  exists n',
    (OnStart (faulty_env false "") grpc_node (demo_world 1)).1.1
      = Return (n', None)
    /\ rpcListeners n'
       = [Some (HTTPListener ":8001"); Some (HTTPListener ":8002");
          Some (GRPCListener ":9090")].
Proof.
  destruct (OnStart_succeeds (faulty_env false "") grpc_node (demo_world 1)
              eq_refl (or_introl eq_refl) ltac:(discriminate)
              ltac:(intros; reflexivity) ltac:(intros; reflexivity))
    as (n' & ls & Hls & Hret & Hrpc & _).
  exists n'. split; [exact Hret|]. rewrite Hrpc, Hls. reflexivity.
Defined.

(** X21 on a node with two listeners, the second of which fails to close:
    both are closed and the error is logged. *)
Lemma OnStop_closes_every_listener_witness :
  closed (OnStop (faulty_env false "")
            (set_rpcListeners grpc_node
               [Some (HTTPListener ":8001"); Some (HTTPListener ":8002")])
            {| store := 1%Z; pins := ∅;
               listening := [ApiListener "0.0.0.0:1999";
                             HTTPListener ":8001";
                             HTTPListener ":8002"] |}).2
    = [HTTPListener ":8001"; HTTPListener ":8002"].
Proof.
  destruct (OnStop_closes_every_listener (faulty_env false "")
              (set_rpcListeners grpc_node
                 [Some (HTTPListener ":8001"); Some (HTTPListener ":8002")])
              {| store := 1%Z; pins := ∅;
                 listening := [ApiListener "0.0.0.0:1999";
                               HTTPListener ":8001";
                               HTTPListener ":8002"] |}
              [HTTPListener ":8001"; HTTPListener ":8002"] eq_refl)
    as (_ & Hclosed & _).
  exact Hclosed.
Defined.

(** X23 on [grpc_node], started in a world where the API socket is open. *)
Lemma start_then_stop_witness :
  exists n',
    (OnStart (faulty_env false "") grpc_node
       {| store := 1%Z; pins := ∅;
          listening := [ApiListener "0.0.0.0:1999"] |}).1.1
      = Return (n', None)
    /\ ApiListener "0.0.0.0:1999"
         ∈ listening
             (OnStop (faulty_env false "") n'
                (OnStart (faulty_env false "") grpc_node
                   {| store := 1%Z; pins := ∅;
                      listening := [ApiListener "0.0.0.0:1999"] |}).1.2).1.2.
Proof.
  destruct (start_then_stop (faulty_env false "") grpc_node
              {| store := 1%Z; pins := ∅;
                 listening := [ApiListener "0.0.0.0:1999"] |}
              eq_refl (or_introl eq_refl) ltac:(discriminate)
              ltac:(intros; reflexivity) ltac:(intros; reflexivity))
    as (n' & ls & _ & Hret & _ & _ & _ & Hapi).
  exists n'. split; [exact Hret|]. apply Hapi. apply list_elem_of_here.
Defined.

(** X22 with the addresses [:8001] and [:8002], the second being taken. *)
Lemma failed_start_leaks_past_stop_witness :
  exists n',
    (OnStart (demo_env false false [":8002"])
       (demo_node false "" ":8001,:8002") (demo_world 1)).1.1
      = Return (n', Some "address already in use")
    /\ HTTPListener ":8001"
         ∈ listening
             (OnStop (demo_env false false [":8002"]) n'
                (OnStart (demo_env false false [":8002"])
                   (demo_node false "" ":8001,:8002") (demo_world 1)).1.2).1.2.
Proof.
  destruct (failed_start_leaks_past_stop (demo_env false false [":8002"])
              (demo_node false "" ":8001,:8002") (demo_world 1)
              [":8001"] ":8002" [] "address already in use"
              eq_refl eq_refl (or_introl eq_refl) ltac:(discriminate) eq_refl)
    as (n' & Hret & _ & _ & _ & _ & Hopen).
  - intros [|k] a Hk; [inversion Hk; reflexivity | discriminate].
  - reflexivity.
  - exists n'. split; [exact Hret | apply Hopen; apply list_elem_of_here].
Defined.

End NodeProps.
